(** * convert-gptneox-hf-to-gguf.py: vocabulary, dtype policy and shard loop

    A shallow embedding of the conversion script.  Python values are
    represented as follows.

    - [int] is [Z] (unbounded); lengths and loop counters that the code only
      ever increments from zero are [nat].
    - [str] is the Rocq [string] holding the UTF-8 bytes of the text, so
      [encode("utf-8")] is the identity on the representation and the
      [bytes] tests [startswith]/[endswith] with ASCII arguments read the
      same bytes the [str] tests do.
    - [dict] is an association list in insertion order with pairwise
      distinct keys; a JSON object is given by its members in file order
      and turned into a dict the way [json.load] does.
    - [float] is an IEEE binary64 value ([spec_float]).
    - an uncaught exception, [sys.exit] and normal completion are the three
      ways a computation ends ([result]); everything the script prints or
      sends to the checkpoint reader and the gguf writer is an [event] of
      the trace. *)

From Stdlib Require Import List ZArith String Ascii Bool Arith Lia.
From Stdlib Require Import Permutation Decimal DecimalString.
From Stdlib Require Import Floats.SpecFloat.
From Stdlib Require DecimalNat.
Import ListNotations.

Set Implicit Arguments.

Notation "a +++ b" := (String.append a b) (right associativity, at level 60).

(** ** Python primitives *)

Module Py.

(** [str(n)] for an int. *)
Definition str_Z (z : Z) : string := NilZero.string_of_int (Z.to_int z).
Definition str_nat (n : nat) : string := NilZero.string_of_uint (Nat.to_uint n).

(** [sep.join(l)]. *)
Fixpoint join (sep : string) (l : list string) : string :=
  match l with
  | [] => EmptyString
  | [s] => s
  | s :: l' => s +++ sep +++ join sep l'
  end.

(** [str(l)] for a list of ints: [[100, 105]]. *)
Definition str_list_Z (l : list Z) : string :=
  "[" +++ join ", " (map str_Z l) +++ "]".

(** A [float] is an IEEE binary64 value: sign, 53-bit mantissa and
    exponent.  [float_of_int] is the literal of an integer-valued float. *)
Definition float : Type := spec_float.
Definition float_of_int (z : Z) : float := binary_normalize 53 1024 z 0 false.

(** [s.startswith(p)]. *)
Definition startswith (s p : string) : bool := String.prefix p s.

(** [s.endswith(suf)]: some tail of [s] is [suf]. *)
Fixpoint endswith (s suf : string) : bool :=
  if String.eqb s suf then true
  else match s with
       | EmptyString => false
       | String _ s' => endswith s' suf
       end.

(** [text.encode("utf-8")] on the UTF-8 representation of [str]. *)
Definition encode_utf8 (s : string) : string := s.

(** [list(range(a, b))]. *)
Definition range (a b : Z) : list Z :=
  map (fun i => (a + Z.of_nat i)%Z) (seq 0 (Z.to_nat (b - a))).

(** [enumerate(l)]. *)
Definition enumerate {A} (l : list A) : list (nat * A) :=
  combine (seq 0 (List.length l)) l.

(** [f"{n:05}"] for a non-negative int: decimal, left-padded with zeros
    to width five, never truncated. *)
Definition fmt05 (n : nat) : string :=
  let d := str_nat n in
  String.concat "" (repeat "0"%string (5 - String.length d)) +++ d.

(** [sorted(l, key=key)]: Python's sort is stable; insertion from the
    right that stops at the first element with a key not smaller than
    the inserted one keeps equal keys in their original order. *)
Section Sorted.
Variable A : Type.
Variable key : A -> Z.

Fixpoint insert_by (x : A) (l : list A) : list A :=
  match l with
  | [] => [x]
  | y :: l' => if (key x <=? key y)%Z then x :: l else y :: insert_by x l'
  end.

Definition sorted_by (l : list A) : list A := fold_right insert_by [] l.
End Sorted.

Definition sorted (l : list Z) : list Z := sorted_by (fun z => z) l.

(** *** dict *)

Definition dict (V : Type) := list (string * V).

Section Dict.
Variable V : Type.

(** [d[k] = v]: an existing key keeps its position. *)
Fixpoint dict_set (k : string) (v : V) (d : dict V) : dict V :=
  match d with
  | [] => [(k, v)]
  | (k', v') :: d' =>
      if String.eqb k' k then (k', v) :: d' else (k', v') :: dict_set k v d'
  end.

(** [dict(items)], also what [json.load] does with an object's
    members: a repeated key keeps its first position and its last
    value. *)
Definition dict_of_items (items : list (string * V)) : dict V :=
  fold_left (fun d kv => dict_set (fst kv) (snd kv) d) items [].

(** [d.get(k)]. *)
Fixpoint dict_get (k : string) (d : dict V) : option V :=
  match d with
  | [] => None
  | (k', v) :: d' => if String.eqb k' k then Some v else dict_get k d'
  end.

(** [k in d]. *)
Definition dict_contains (k : string) (d : dict V) : bool :=
  match dict_get k d with Some _ => true | None => false end.

Definition dict_keys (d : dict V) : list string := map fst d.
Definition dict_values (d : dict V) : list V := map snd d.
Definition dict_items (d : dict V) : list (string * V) := d.
Definition len (d : dict V) : Z := Z.of_nat (List.length d).
End Dict.

End Py.

Import Py.

(** ** Ways a computation ends *)

Inductive result (A : Type) : Type :=
| Ok (a : A)
| Raise (exn : string) (msg : string)   (* uncaught exception: class, message *)
| SysExit (status : Z).                  (* SystemExit reaching the top level *)

Arguments Ok {A} a.
Arguments Raise {A} exn msg.
Arguments SysExit {A} status.

(** [sys.exit(arg)]: no argument (or [None]) is exit status 0. *)
Definition sys_exit {A} (arg : option Z) : result A :=
  match arg with
  | None => SysExit 0
  | Some n => SysExit n
  end.

(** ** gguf.TokenType *)

(** Modelled from the spec: the enumeration [gguf.TokenType] lives in the
    gguf package; the five tags that the script and the spec name. *)
Inductive TokenType : Type :=
| NORMAL | UNKNOWN | CONTROL | USER_DEFINED | BYTE.

(** ** BpeVocab *)

(** The parts of [tokenizer.json] the script reads: [["model"]["vocab"]]
    (members in file order) and the optional ["added_tokens"] listing of
    [(content, id)] items. *)
Record tokenizer_json : Type := {
  tj_model_vocab : list (string * Z);
  tj_added_tokens : option (list (string * Z))
}.

Record BpeVocab : Type := {
  bpe_tokenizer : dict Z;
  added_tokens_list : list string;
  vocab_size_base : Z;
  vocab_size : Z
}.

Module BpeVocabM.

(** Lines 28-43: where the added tokens come from.  [fname_added_tokens]
    is the parsed explicit file when a path was given; [tokenizer_json_file]
    is the parsed [tokenizer.json] next to the tokenizer when it is a
    file. *)
Definition load_added_tokens (bpe : dict Z)
    (fname_added_tokens : option (list (string * Z)))
    (tokenizer_json_file : option tokenizer_json) : dict Z :=
  match fname_added_tokens with
  | Some members => dict_of_items members
  | None =>
      match tokenizer_json_file with
      | None => []
      | Some tj =>
          let listing := match tj_added_tokens tj with
                         | Some l => l
                         | None => []
                         end in
          dict_of_items
            (filter (fun item => negb (dict_contains (fst item) bpe)) listing)
      end
  end.

(** The message of line 50. *)
Definition consistency_message (vocab_size : Z) (actual_ids : list Z) : string :=
  let expected_end_id := (vocab_size + Z.of_nat (List.length actual_ids) - 1)%Z in
  "Expected the " +++ str_nat (List.length actual_ids) +++
  " added token ID(s) to be sequential in the range " +++
  str_Z vocab_size +++ " - " +++ str_Z expected_end_id +++
  "; got " +++ str_list_Z actual_ids.

(** Lines 45-57. *)
Definition check_and_build (bpe : dict Z) (added_tokens : dict Z) : result BpeVocab :=
  let vocab_size := len bpe in
  let expected_ids := range vocab_size (vocab_size + len added_tokens) in
  let actual_ids := sorted (dict_values added_tokens) in
  if list_eq_dec Z.eq_dec expected_ids actual_ids then
    let items := sorted_by snd (dict_items added_tokens) in
    let added_tokens_list := map fst items in
    Ok {| bpe_tokenizer := bpe;
          added_tokens_list := added_tokens_list;
          vocab_size_base := vocab_size;
          vocab_size := (vocab_size + Z.of_nat (List.length added_tokens_list))%Z |}
  else
    Raise "Exception" (consistency_message vocab_size actual_ids).

(** [BpeVocab.__init__]: [fname_tokenizer] is given by its parsed
    content. *)
Definition init (fname_tokenizer : tokenizer_json)
    (fname_added_tokens : option (list (string * Z)))
    (tokenizer_json_file : option tokenizer_json) : result BpeVocab :=
  let bpe := dict_of_items (tj_model_vocab fname_tokenizer) in
  check_and_build bpe
    (load_added_tokens bpe fname_added_tokens tokenizer_json_file).

(** Lines 69-79: the type of the base token at position [i]. *)
Definition classify (i : nat) (text : string) : TokenType :=
  if (i <=? 258)%nat && startswith text "<" && endswith text ">" then
    if (i =? 0)%nat && String.eqb text "<unk>" then UNKNOWN
    else if (i =? 1)%nat || (i =? 2)%nat then CONTROL
    else if (3 <=? i)%nat && startswith text "<0x" then BYTE
    else NORMAL
  else NORMAL.

Definition token : Type := string * float * TokenType.

(** The three columns that lines 240-243 collect. *)
Definition text_of (t : token) : string := fst (fst t).
Definition score_of (t : token) : float := snd (fst t).
Definition type_of (t : token) : TokenType := snd t.

Definition bpe_tokens (v : BpeVocab) : list token :=
  map (fun '(i, item) => (encode_utf8 item, float_of_int 0, classify i item))
      (enumerate (dict_keys (bpe_tokenizer v))).

Definition added_tokens (v : BpeVocab) : list token :=
  map (fun text => (encode_utf8 text, float_of_int (-1000), USER_DEFINED))
      (added_tokens_list v).

Definition all_tokens (v : BpeVocab) : list token :=
  bpe_tokens v ++ added_tokens v.

End BpeVocabM.

(** ** Tensors *)

(** Element types of checkpoint tensors.  [float16] and [float32] are the
    two the script tests for; the others stand for every other torch
    dtype.  After line 281 only [float16] and [float32] remain, and the
    numpy dtype of [data.numpy()] is the one of the same name. *)
Inductive dtype : Type :=
| float16 | float32 | float64 | bfloat16
| int8 | int16 | int32 | int64 | uint8 | bool_.

Definition dtype_eqb (a b : dtype) : bool :=
  match a, b with
  | float16, float16 | float32, float32 | float64, float64
  | bfloat16, bfloat16 | int8, int8 | int16, int16 | int32, int32
  | int64, int64 | uint8, uint8 | bool_, bool_ => true
  | _, _ => false
  end.

Definition dtype_name (d : dtype) : string :=
  match d with
  | float16 => "float16" | float32 => "float32" | float64 => "float64"
  | bfloat16 => "bfloat16" | int8 => "int8" | int16 => "int16"
  | int32 => "int32" | int64 => "int64" | uint8 => "uint8" | bool_ => "bool"
  end.

(** A tensor or array as far as the script looks at it: element type and
    shape. *)
Record tensor : Type := {
  t_dtype : dtype;
  t_shape : list nat
}.

Module Tensor.
(** [data.to(dt)] and [data.astype(dt)]. *)
Definition to (dt : dtype) (t : tensor) : tensor :=
  {| t_dtype := dt; t_shape := t_shape t |}.
Definition astype (dt : dtype) (t : tensor) : tensor := to dt t.

Definition not_one (n : nat) : bool := negb (n =? 1)%nat.

(** [data.squeeze()]: every dimension of size one is removed. *)
Definition squeeze (t : tensor) : tensor :=
  {| t_dtype := t_dtype t; t_shape := filter not_one (t_shape t) |}.

(** [data.numpy()]. *)
Definition numpy (t : tensor) : tensor := t.
End Tensor.

(** ** The dtype policy *)

Module Policy.
Import Tensor.

(** Lines 280-283. *)
Definition normalize (data : tensor) : tensor :=
  let data :=
    if negb (dtype_eqb (t_dtype data) float16) &&
       negb (dtype_eqb (t_dtype data) float32)
    then to float32 data else data in
  numpy (squeeze data).

(** Lines 291-304, on the array of line 283. *)
Definition apply_ftype (ftype : Z) (name : string) (data : tensor) : tensor :=
  let n_dims := List.length (t_shape data) in
  let data_dtype := t_dtype data in
  let data :=
    if (ftype =? 0)%Z && dtype_eqb data_dtype float16
    then astype float32 data else data in
  let data :=
    if (ftype =? 1)%Z && dtype_eqb data_dtype float16 && (n_dims =? 1)%nat
    then astype float32 data else data in
  let data :=
    if (ftype =? 1)%Z && dtype_eqb data_dtype float32 &&
       endswith name ".weight" && (n_dims =? 2)%nat
    then astype float16 data else data in
  data.

(** What reaches [add_tensor] for a native tensor. *)
Definition convert (ftype : Z) (name : string) (data : tensor) : tensor :=
  apply_ftype ftype name (normalize data).

(** The rank the policy consults (line 291). *)
Definition n_dims (data : tensor) : nat :=
  List.length (t_shape (normalize data)).

(** The decision function as section 4.3 of the specification words it,
    [decide(target_precision, native_dtype, rank, is_weight_suffix)], with
    target 0 for 32-bit and 1 for 16-bit; it is compared with [convert]
    below. *)
Definition decide (target : Z) (native : dtype) (rank : nat)
    (is_weight_suffix : bool) : dtype :=
  let normalized :=
    match native with
    | float16 => float16
    | float32 => float32
    | _ => float32
    end in
  if (target =? 0)%Z then
    match normalized with
    | float16 => float32
    | other => other
    end
  else if (target =? 1)%Z then
    match normalized with
    | float16 => if (rank =? 1)%nat then float32 else float16
    | float32 => if (rank =? 2)%nat && is_weight_suffix then float16 else float32
    | other => other
    end
  else normalized.
End Policy.

(** ** Traces *)

Inductive event : Type :=
| Print (line : string)                  (* stdout *)
| PrintErr (line : string)               (* stderr *)
| OpenWriter (fname_out : string)        (* gguf.GGUFWriter(fname_out, ...) *)
| SinkCall (method : string)             (* a writer call whose arguments are not modelled *)
| AddTokenList (tokens : list string)
| AddTokenScores (scores : list float)
| AddTokenTypes (toktypes : list TokenType)
| TorchLoad (path : string)              (* torch.load(path, ...) *)
| AddTensor (new_name : string) (data : tensor).

Definition M (A : Type) : Type := list event * result A.

Definition ret {A} (a : A) : M A := ([], Ok a).

Definition bind {A B} (m : M A) (f : A -> M B) : M B :=
  match m with
  | (t, Ok a) => let (t', r) := f a in (t ++ t', r)
  | (t, Raise e msg) => (t, Raise e msg)
  | (t, SysExit s) => (t, SysExit s)
  end.

Definition emit (e : event) : M unit := ([e], Ok tt).
Definition lift {A} (r : result A) : M A := ([], r).
Definition exit {A} (arg : option Z) : M A := lift (sys_exit arg).

Notation "x <- m ;; k" := (bind m (fun x => k))
  (at level 61, m at next level, right associativity).
Notation "m ;; k" := (bind m (fun _ => k))
  (at level 61, right associativity).

(** [for x in l: body], where [body] can end the run. *)
Fixpoint for_each {A} (body : A -> M unit) (l : list A) : M unit :=
  match l with
  | [] => ret tt
  | x :: l' => body x ;; for_each body l'
  end.

(** The same with [break]: [body] answers [true] to leave the loop. *)
Fixpoint for_break {A} (body : A -> M bool) (l : list A) : M unit :=
  match l with
  | [] => ret tt
  | x :: l' => b <- body x ;; if b : bool then ret tt else for_break body l'
  end.

(** [l[i]] *)
Definition list_index {A} (l : list A) (i : Z) : M A :=
  let n := Z.of_nat (List.length l) in
  let j := if (i <? 0)%Z then (i + n)%Z else i in
  match (if (0 <=? j)%Z && (j <? n)%Z then nth_error l (Z.to_nat j) else None) with
  | Some a => ret a
  | None => lift (Raise "IndexError" "list index out of range")
  end.

(** ** The script *)

(** Parsed command line; argparse has checked [ftype] against
    [choices=[0, 1]].  [model] and [outfile] are the paths as pathlib
    prints them; a join [dir_model / name] is written
    [model +++ "/" +++ name], which is what pathlib prints for every
    directory path but [.] and the root. *)
Record args : Type := {
  vocab_only : bool;
  outfile : option string;
  model : string;
  ftype : Z
}.

(** The model directory as the script reads it.  [config.json] is taken
    to be present with the keys the script reads, [torch.load] to give a
    dict for each part path, and the calls on the gguf writer and on
    [SpecialVocab] to return without output of their own: a run that fails
    inside one of these is outside the model, which has the endings the
    script itself makes ([sys.exit], the exception of [BpeVocab], an index
    out of range) and the normal one. *)
Record model_dir : Type := {
  is_dir : bool;
  dir_name : string;                               (* dir_model.name *)
  architectures : list string;                     (* hparams["architectures"] *)
  listdir : list string;                           (* os.listdir(dir_model) *)
  tokenizer_file : option tokenizer_json;          (* None: not a file *)
  added_tokens_file : option (list (string * Z));  (* None: does not exist *)
  torch_load : string -> list (string * tensor)    (* keys in dict order *)
}.

(** Lines 116-119. *)
Definition count_parts (listing : list string) : nat :=
  fold_left (fun n filename =>
             if startswith filename "pytorch_model-" then (n + 1)%nat else n)
          listing 0%nat.

Definition count_model_parts (listing : list string) : M nat :=
  let num_parts := count_parts listing in
  (if (0 <? num_parts)%nat
   then emit (Print ("gguf: found " +++ str_nat num_parts +++ " model parts"))
   else ret tt) ;;
  ret num_parts.

(** Lines 257-262. *)
Definition part_names (num_parts : nat) : list string :=
  if (num_parts =? 0)%nat then ["pytorch_model.bin"%string]
  else map (fun n => "pytorch_model-" +++ fmt05 n +++ "-of-" +++
                   fmt05 num_parts +++ ".bin")
         (seq 1 num_parts).

Definition ftype_str : list string := ["f32"%string; "f16"%string].

(** The message of line 288. *)
Definition cannot_map (name : string) : string :=
  "Can not map tensor '" +++ name +++ "'".

(** The test of line 274. *)
Definition unwanted (name : string) : bool :=
  endswith name ".attention.masked_bias" ||
  endswith name ".attention.bias" ||
  endswith name ".attention.rotary_emb.inv_freq".

Definition metadata_calls : list string :=
  ["add_name"; "add_context_length"; "add_embedding_length";
   "add_block_count"; "add_feed_forward_length";
   "add_rope_dimension_count"; "add_head_count"; "add_parallel_residual";
   "add_layer_norm_eps"]%string.

(** The parts the loop of line 264 gets to: all of them up to and
    including the first one that holds a wanted name that does not map. *)
Fixpoint upto_first {A} (p : A -> bool) (l : list A) : list A :=
  match l with
  | [] => []
  | x :: l' => x :: if p x then [] else upto_first p l'
  end.

Section Script.

(** [tensor_map.get_name(name, try_suffixes = (".weight", ".bias"))] of
    the gguf package, for the block count of the model. *)
Variable get_name : string -> option string.

Variable a : args.
Variable d : model_dir.

(** Lines 271-308: one tensor of a part. *)
Definition tensor_step (name : string) (data : tensor) : M unit :=
  if unwanted name then ret tt
  else
    let old_dtype := t_dtype data in
    let data := Policy.normalize data in
    match get_name name with
    | None =>
      emit (Print (cannot_map name)) ;;
      exit None
    | Some new_name =>
      let n_dims := List.length (t_shape data) in
      let data := Policy.apply_ftype (ftype a) name data in
      emit (Print (new_name +++ ", n_dims = " +++ str_nat n_dims +++ ", " +++
                   "torch." +++ dtype_name old_dtype +++ " --> " +++
                   dtype_name (t_dtype data))) ;;
      emit (AddTensor new_name data)
    end.

(** [f"{dir_model}/{part_name}"]. *)
Definition part_path (part_name : string) : string :=
  model a +++ "/" +++ part_name.

(** Lines 264-308: one part; the answer [true] is the [break]. *)
Definition part_step (part_name : string) : M bool :=
  if vocab_only a then ret true
  else
    emit (Print ("gguf: loading model part '" +++ part_name +++ "'")) ;;
    emit (TorchLoad (part_path part_name)) ;;
    let model_part := torch_load d (part_path part_name) in
    for_each (fun nt : string * tensor => tensor_step (fst nt) (snd nt))
           model_part ;;
    ret false.

(** Lines 134-183: directory and architecture checks, part count, writer
    and metadata.  Gives the output path and the part count. *)
Definition open_stage : M (string * nat) :=
  if negb (is_dir d) then
    emit (PrintErr ("Error: " +++ model a +++ " is not a directory")) ;;
    exit (Some 1%Z)
  else
    fname_out <- match outfile a with
               | Some f => ret f
               | None => s <- list_index ftype_str (ftype a) ;;
                         ret (model a +++ "/ggml-model-" +++ s +++ ".gguf")
               end ;;
    emit (Print ("gguf: loading model " +++ dir_name d)) ;;
    arch <- list_index (architectures d) 0 ;;
    if negb (String.eqb arch "GPTNeoXForCausalLM") then
    arch' <- list_index (architectures d) 0 ;;
    emit (Print ("Model architecture not supported: " +++ arch')) ;;
    exit None
    else
    num_parts <- count_model_parts (listdir d) ;;
    emit (OpenWriter fname_out) ;;
    emit (Print "gguf: get model metadata") ;;
    for_each (fun m => emit (SinkCall m)) metadata_calls ;;
    ret (fname_out, num_parts).

(** Lines 185-249: the vocabulary. *)
Definition vocab_stage : M unit :=
  emit (Print "gguf: get tokenizer metadata") ;;
  match tokenizer_file d with
  | None =>
    emit (PrintErr ("Error: Missing " +++ model a +++ "/tokenizer.json")) ;;
    exit (Some 1%Z)
  | Some tj =>
    emit (SinkCall "add_tokenizer_model") ;;
    emit (Print "gguf: get gpt2 tokenizer vocab") ;;
    vocab <- lift (BpeVocabM.init tj (added_tokens_file d) (Some tj)) ;;
    let all := BpeVocabM.all_tokens vocab in
    emit (AddTokenList (map (fun t => fst (fst t)) all)) ;;
    emit (AddTokenScores (map (fun t => snd (fst t)) all)) ;;
    emit (AddTokenTypes (map (fun t => snd t) all)) ;;
    emit (SinkCall "special_vocab.add_to_gguf")
  end.

(** Lines 252-308: the parts. *)
Definition tensor_stage (num_parts : nat) : M unit :=
  emit (Print "gguf: get tensor metadata") ;;
  for_break part_step (part_names num_parts).

(** Lines 311-322. *)
Definition close_stage (fname_out : string) : M unit :=
  emit (Print "gguf: write header") ;;
  emit (SinkCall "write_header_to_file") ;;
  emit (Print "gguf: write metadata") ;;
  emit (SinkCall "write_kv_data_to_file") ;;
  (if negb (vocab_only a) then
     emit (Print "gguf: write tensors") ;;
     emit (SinkCall "write_tensors_to_file")
   else ret tt) ;;
  emit (SinkCall "close") ;;
  emit (Print ("gguf: model successfully exported to '" +++ fname_out +++ "'")) ;;
  emit (Print "").

(** The script, top to bottom. *)
Definition main : M unit :=
  opened <- open_stage ;;
  vocab_stage ;;
  tensor_stage (snd opened) ;;
  close_stage (fst opened).

(** A wanted tensor name the mapper does not know. *)
Definition unmappable (name : string) : bool :=
  negb (unwanted name) &&
  match get_name name with Some _ => false | None => true end.

(** What the tensors of one part send to the writer when all the wanted
    names map. *)
Definition sent_tensors (model_part : list (string * tensor))
  : list (string * tensor) :=
  flat_map (fun nt : string * tensor =>
              if unwanted (fst nt) then []
              else match get_name (fst nt) with
                   | Some new_name =>
                       [(new_name, Policy.convert (ftype a) (fst nt) (snd nt))]
                   | None => []
                   end)
           model_part.

(** The reads and writer tensors of one part, in order. *)
Definition part_events (part_name : string) : list event :=
  TorchLoad (part_path part_name) ::
  map (fun nt : string * tensor => AddTensor (fst nt) (snd nt))
      (sent_tensors (torch_load d (part_path part_name))).

(** A part with a wanted name that does not map. *)
Definition part_unmappable (part_name : string) : bool :=
  existsb (fun nt : string * tensor => unmappable (fst nt))
          (torch_load d (part_path part_name)).

(** The output path can be formed: an explicit [--outfile], or an [ftype]
    that argparse accepts. *)
Definition fname_out_defined : Prop :=
  outfile a <> None \/ ftype a = 0%Z \/ ftype a = 1%Z.

End Script.

(** What a run leaves behind. *)
Definition stdout (t : list event) : list string :=
  flat_map (fun e => match e with Print s => [s] | _ => [] end) t.
Definition stderr (t : list event) : list string :=
  flat_map (fun e => match e with PrintErr s => [s] | _ => [] end) t.
Definition loads (t : list event) : list string :=
  flat_map (fun e => match e with TorchLoad p => [p] | _ => [] end) t.
Definition emitted (t : list event) : list (string * tensor) :=
  flat_map (fun e => match e with AddTensor n x => [(n, x)] | _ => [] end) t.

(** The checkpoint reads and writer tensors of a trace, in order. *)
Definition shard_events (t : list event) : list event :=
  filter (fun e => match e with
                   | TorchLoad _ | AddTensor _ _ => true
                   | _ => false
                   end) t.

(** Exit status of the process: 0 on normal completion, the status of
    [sys.exit], 1 for an uncaught exception. *)
Definition exit_status {A} (r : result A) : Z :=
  match r with
  | Ok _ => 0
  | SysExit s => s
  | Raise _ _ => 1
  end.

(** ** Tests on traces *)

(** Every event of the trace of [m] passes the test [P]. *)
Definition only (P : event -> bool) {A} (m : M A) : Prop :=
  forallb P (fst m) = true.

Definition not_shard (e : event) : bool :=
  match e with TorchLoad _ | AddTensor _ _ => false | _ => true end.
Definition not_stderr (e : event) : bool :=
  match e with PrintErr _ => false | _ => true end.
Definition not_load (e : event) : bool :=
  match e with TorchLoad _ => false | _ => true end.

(** Every value [m] can end with passes [Q]. *)
Definition returns {A} (Q : A -> Prop) (m : M A) : Prop :=
  forall x, snd m = Ok x -> Q x.

(** ** Sample inputs *)

Definition base100 : list (string * Z) :=
  map (fun i => ("t" +++ str_nat i, Z.of_nat i)) (seq 0 100).

Definition tj100 : tokenizer_json :=
  {| tj_model_vocab := base100; tj_added_tokens := None |}.

Definition sample_map (name : string) : option string :=
  if endswith name ".weight" then Some ("blk." +++ name) else None.

Definition sample_dir : model_dir :=
  {| is_dir := true; dir_name := "m"; architectures := ["GPTNeoXForCausalLM"%string];
     listdir := ["config.json"; "pytorch_model-00001-of-00002.bin";
                 "pytorch_model-00002-of-00002.bin"; "tokenizer.json"]%string;
     tokenizer_file := Some tj100;
     added_tokens_file := Some [("<pad>"%string, 100%Z); ("<sep>"%string, 101%Z)];
     torch_load := fun p =>
       if endswith p "00001-of-00002.bin"
       then [("a.attention.bias"%string, {| t_dtype := bool_; t_shape := [1;1;8;8]%nat |});
             ("a.weight"%string, {| t_dtype := float32; t_shape := [1;4;8]%nat |})]
       else [("b.weight"%string, {| t_dtype := float16; t_shape := [4]%nat |})] |}.

(** The same directory with a tensor the mapper does not know in its
    second part. *)
Definition sample_dir_unmapped : model_dir :=
  {| is_dir := true; dir_name := "m"; architectures := architectures sample_dir;
     listdir := listdir sample_dir;
     tokenizer_file := tokenizer_file sample_dir;
     added_tokens_file := added_tokens_file sample_dir;
     torch_load := fun p =>
       if endswith p "00001-of-00002.bin"
       then torch_load sample_dir p
       else [("b.weight"%string, {| t_dtype := float16; t_shape := [4]%nat |});
             ("c.scale"%string, {| t_dtype := float32; t_shape := [4]%nat |})] |}.

Definition sample_weight (shape : list nat) : tensor :=
  {| t_dtype := float32; t_shape := shape |}.

Definition sample_args : args :=
  {| vocab_only := false; outfile := None; model := "/m"; ftype := 1 |}.

(** A base vocabulary whose file order is not its id order. *)
Definition tj_swapped : tokenizer_json :=
  {| tj_model_vocab := [("b"%string, 1%Z); ("a"%string, 0%Z)];
     tj_added_tokens := None |}.

(** A tokenizer.json whose embedded listing repeats a base token and
    brings one new token with the next free id. *)
Definition tj_embedded : tokenizer_json :=
  {| tj_model_vocab := [("a"%string, 0%Z); ("b"%string, 1%Z)];
     tj_added_tokens := Some [("a"%string, 0%Z); ("<pad>"%string, 2%Z)] |}.

Definition pad_sep_gap : list (string * Z) :=
  [("<pad>"%string, 100%Z); ("<sep>"%string, 105%Z)].

Definition pad_sep : list (string * Z) :=
  [("<pad>"%string, 100%Z); ("<sep>"%string, 101%Z)].

(** ** bytes_to_unicode *)

(** [chr(n)] in the UTF-8 representation of [str], for a code point below
    0x110000 that is not a surrogate. *)
Definition byte_of_Z (n : Z) : ascii := ascii_of_N (Z.to_N n).

Definition chr (n : Z) : string :=
  if (n <? 128)%Z then String (byte_of_Z n) ""
  else if (n <? 2048)%Z then
    String (byte_of_Z (192 + n / 64))
      (String (byte_of_Z (128 + n mod 64)) "")
  else if (n <? 65536)%Z then
    String (byte_of_Z (224 + n / 4096))
      (String (byte_of_Z (128 + (n / 64) mod 64))
         (String (byte_of_Z (128 + n mod 64)) ""))
  else
    String (byte_of_Z (240 + n / 262144))
      (String (byte_of_Z (128 + (n / 4096) mod 64))
         (String (byte_of_Z (128 + (n / 64) mod 64))
            (String (byte_of_Z (128 + n mod 64)) ""))).

(** A dict with int keys, with the insertion behaviour of [dict]. *)
Definition idict (V : Type) := list (Z * V).

Fixpoint idict_set {V} (k : Z) (v : V) (d : idict V) : idict V :=
  match d with
  | [] => [(k, v)]
  | (k', v') :: d' =>
      if (k' =? k)%Z then (k', v) :: d' else (k', v') :: idict_set k v d'
  end.

Definition idict_of_items {V} (items : list (Z * V)) : idict V :=
  fold_left (fun d kv => idict_set (fst kv) (snd kv) d) items [].

Fixpoint idict_get {V} (k : Z) (d : idict V) : option V :=
  match d with
  | [] => None
  | (k', v) :: d' => if (k' =? k)%Z then Some v else idict_get k d'
  end.

(** Line 104: the bytes that stand for themselves, "!" to "~", the
    inverted exclamation mark to the not sign, the registered sign to y
    with diaeresis. *)
Definition bs_initial : list Z :=
  range 33 (126 + 1) ++ range 161 (172 + 1) ++ range 174 (255 + 1).

(** Lines 105-111: the lists [bs] and [cs] and the counter [n] after the
    loop. *)
Definition bytes_to_unicode_lists : list Z * list Z * Z :=
  fold_left
    (fun (st : list Z * list Z * Z) (b : Z) =>
       let '(bs, cs, n) := st in
       if negb (existsb (Z.eqb b) bs)
       then (bs ++ [b], cs ++ [(2 ^ 8 + n)%Z], (n + 1)%Z)
       else st)
    (range 0 (2 ^ 8))
    (bs_initial, bs_initial, 0%Z).

(** The pairs of [zip(bs, cs)]: byte and code point. *)
Definition bytes_to_unicode_codes : list (Z * Z) :=
  let '(bs, cs, _) := bytes_to_unicode_lists in combine bs cs.

(** Line 112. *)
Definition bytes_to_unicode : idict string :=
  idict_of_items (map (fun bc : Z * Z => (fst bc, chr (snd bc)))
                      bytes_to_unicode_codes).

(** Lines 63-64 of [bpe_tokens]. *)
Definition byte_encoder : idict string := bytes_to_unicode.
Definition byte_decoder : dict Z :=
  dict_of_items (map (fun kv : Z * string => (snd kv, fst kv)) byte_encoder).

(** The code point that lines 104-111 give to a byte, in closed form: the byte itself when it
    is one of [bs_initial], and otherwise 256 plus the number of smaller
    bytes that are not. *)
Definition code_point_of (b : Z) : Z :=
  if existsb (Z.eqb b) bs_initial then b
  else (256 + Z.of_nat (List.length
                          (filter (fun x => negb (existsb (Z.eqb x) bs_initial))
                                  (range 0 b))))%Z.

(** The test of line 118. *)
Definition is_part_file (filename : string) : bool :=
  startswith filename "pytorch_model-".

(** ** BpeVocab.__repr__ *)

Definition BpeVocab_repr (v : BpeVocab) : string :=
  "<BpeVocab with " +++ str_Z (vocab_size_base v) +++ " base tokens and " +++
  str_nat (List.length (added_tokens_list v)) +++ " added tokens>".

(** ** More tests on traces *)

(** [int(s)] for a string of decimal digits. *)
Definition int_of_digits (s : string) : option nat :=
  option_map Nat.of_uint (NilZero.uint_of_string s).

(** What the gguf writer sees of a run, in order. *)
Definition writer_events (t : list event) : list event :=
  filter (fun e => match e with
                   | Print _ | PrintErr _ | TorchLoad _ => false
                   | _ => true
                   end) t.

(** The writer calls of lines 311-319. *)
Definition closing_calls : list string :=
  ["write_header_to_file"; "write_kv_data_to_file"; "write_tensors_to_file";
   "close"]%string.

Definition not_closing (e : event) : bool :=
  match e with
  | SinkCall m => negb (existsb (String.eqb m) closing_calls)
  | _ => true
  end.

(** An array as [add_tensor] may get it under target [ft]: float16 or
    float32, no dimension of size one, float32 when the target is 0. *)
Definition sendable (ft : Z) (x : tensor) : bool :=
  (dtype_eqb (t_dtype x) float16 || dtype_eqb (t_dtype x) float32) &&
  forallb Tensor.not_one (t_shape x) &&
  (if (ft =? 0)%Z then dtype_eqb (t_dtype x) float32 else true).

Definition sends_sendable (ft : Z) (e : event) : bool :=
  match e with
  | AddTensor _ x => sendable ft x
  | _ => true
  end.

(** The output path of lines 149-153 in closed form, for an [ftype] that
    argparse accepts. *)
Definition fname_out_of (a : args) : string :=
  match outfile a with
  | Some f => f
  | None =>
      model a +++ "/ggml-model-" +++
      (if (ftype a =? 0)%Z then "f32" else "f16") +++ ".gguf"
  end.

(** The events of the tensor stage: lines printed, files read, tensors
    sent. *)
Definition tensor_stage_event (e : event) : bool :=
  match e with
  | Print _ | TorchLoad _ | AddTensor _ _ => true
  | _ => false
  end.

(** [add_tensor(new_name, data)] for a pair. *)
Definition add_tensor (nt : string * tensor) : event :=
  AddTensor (fst nt) (snd nt).

(** * Properties *)

(** ** The model on small inputs *)

Example str_list_Z_gap :
  str_list_Z [100; 105]%Z = "[100, 105]"%string.
Proof. reflexivity. Qed.

Example score_literals :
  float_of_int 0 = S754_zero false /\
  float_of_int (-1000) = S754_finite true 8796093022208000 (-43).
Proof. split; reflexivity. Qed.

Example fmt05_pads :
  fmt05 3 = "00003"%string /\ fmt05 (100 * 1000) = "100000"%string.
Proof. split; vm_compute; reflexivity. Qed.

Example endswith_weight :
  endswith "gpt_neox.layers.0.mlp.dense_h_to_4h.weight" ".weight" = true /\
  endswith "gpt_neox.layers.0.mlp.dense_h_to_4h.bias" ".weight" = false.
Proof. split; reflexivity. Qed.

Example sorted_is_stable :
  sorted_by snd [("c"%string, 2%Z); ("a"%string, 1%Z); ("b"%string, 1%Z)] =
  [("a"%string, 1%Z); ("b"%string, 1%Z); ("c"%string, 2%Z)].
Proof. reflexivity. Qed.

Example dict_repeated_key :
  dict_of_items [("a"%string, 1%Z); ("b"%string, 2%Z); ("a"%string, 3%Z)] =
  [("a"%string, 3%Z); ("b"%string, 2%Z)].
Proof. reflexivity. Qed.

Example classify_samples :
  BpeVocabM.classify 0 "<unk>" = UNKNOWN /\
  BpeVocabM.classify 0 "<s>" = NORMAL /\
  BpeVocabM.classify 2 "</s>" = CONTROL /\
  BpeVocabM.classify 13 "<0x0A>" = BYTE /\
  BpeVocabM.classify 259 "<0x0A>" = NORMAL /\
  BpeVocabM.classify 1 "the" = NORMAL.
Proof. repeat split. Qed.

Example squeeze_sample :
  Policy.convert 1 "a.weight" {| t_dtype := float32; t_shape := [1; 4; 8]%nat |} =
  {| t_dtype := float16; t_shape := [4; 8]%nat |}.
Proof. reflexivity. Qed.

Example sample_run :
  let run := main sample_map sample_args sample_dir in
  snd run = Ok tt /\
  loads (fst run) = ["/m/pytorch_model-00001-of-00002.bin";
                     "/m/pytorch_model-00002-of-00002.bin"]%string /\
  emitted (fst run) =
    [("blk.a.weight"%string, {| t_dtype := float16; t_shape := [4; 8]%nat |});
     ("blk.b.weight"%string, {| t_dtype := float32; t_shape := [4]%nat |})] /\
  stderr (fst run) = [].
Proof. vm_compute. repeat split. Qed.

Example sample_run_unmapped :
  main sample_map sample_args sample_dir_unmapped =
  (fst (main sample_map sample_args sample_dir_unmapped), SysExit 0) /\
  emitted (fst (main sample_map sample_args sample_dir_unmapped)) =
    [("blk.a.weight"%string, {| t_dtype := float16; t_shape := [4; 8]%nat |});
     ("blk.b.weight"%string, {| t_dtype := float32; t_shape := [4]%nat |})].
Proof. vm_compute. split; reflexivity. Qed.

(** ** Strings *)

Lemma endswith_unfold (s suf : string) :
  endswith s suf =
  if String.eqb s suf then true
  else match s with
       | EmptyString => false
       | String _ s' => endswith s' suf
       end.
Proof. destruct s; reflexivity. Qed.

Lemma endswith_refl (s : string) : endswith s s = true.
Proof. rewrite endswith_unfold, String.eqb_refl. reflexivity. Qed.

Lemma endswith_spec (s suf : string) :
  endswith s suf = true <-> exists p, s = p +++ suf.
Proof.
  induction s as [|c s IH]; rewrite endswith_unfold.
  - destruct (String.eqb_spec "" suf) as [<-|Hne].
    + split; [exists ""%string; reflexivity | reflexivity].
    + split; [discriminate|].
      intros [p Hp]. destruct p; simpl in Hp; [congruence | discriminate].
  - destruct (String.eqb_spec (String c s) suf) as [<-|Hne].
    + split; [exists ""%string; reflexivity | reflexivity].
    + rewrite IH. split.
      * intros [p ->]. exists (String c p). reflexivity.
      * intros [p Hp]. destruct p as [|c' p]; simpl in Hp.
        -- congruence.
        -- injection Hp as _ ->. exists p. reflexivity.
Qed.

(** ** Sorting *)

Section SortedFacts.
Variable A : Type.
Variable key : A -> Z.

Lemma insert_by_perm (x : A) (l : list A) :
  Permutation (x :: l) (insert_by key x l).
Proof.
  induction l as [|y l IH]; simpl; [reflexivity|].
  destruct (key x <=? key y)%Z; [reflexivity|].
  rewrite perm_swap. apply perm_skip, IH.
Qed.

Lemma sorted_by_perm (l : list A) : Permutation l (sorted_by key l).
Proof.
  induction l as [|x l IH]; simpl; [reflexivity|].
  rewrite <- insert_by_perm. apply perm_skip, IH.
Qed.

Lemma sorted_by_length (l : list A) :
  List.length (sorted_by key l) = List.length l.
Proof. symmetry. apply Permutation_length, sorted_by_perm. Qed.

Lemma map_insert_by (x : A) (l : list A) :
  map key (insert_by key x l) = insert_by (fun z => z) (key x) (map key l).
Proof.
  induction l as [|y l IH]; simpl; [reflexivity|].
  destruct (key x <=? key y)%Z; simpl; [reflexivity | now rewrite IH].
Qed.

(** Sorting by a key and then reading the keys is sorting the keys. *)
Lemma map_sorted_by (l : list A) :
  map key (sorted_by key l) = sorted (map key l).
Proof.
  unfold sorted. induction l as [|x l IH]; simpl; [reflexivity|].
  now rewrite map_insert_by, IH.
Qed.
End SortedFacts.

Lemma sorted_length (l : list Z) : List.length (sorted l) = List.length l.
Proof. apply sorted_by_length. Qed.

Lemma range_length (a b : Z) : List.length (range a b) = Z.to_nat (b - a).
Proof. unfold range. now rewrite length_map, length_seq. Qed.

Lemma range_nth (a b : Z) (j : nat) :
  (j < Z.to_nat (b - a))%nat ->
  nth_error (range a b) j = Some (a + Z.of_nat j)%Z.
Proof.
  intros Hj. unfold range.
  rewrite nth_error_map, nth_error_seq.
  destruct (Nat.ltb_spec j (Z.to_nat (b - a))); [reflexivity | lia].
Qed.

(** ** dict *)

Section DictFacts.
Variable V : Type.
Implicit Types (d : dict V) (k : string) (v : V).

Lemma dict_get_set k k' v d :
  dict_get k (dict_set k' v d) =
  if String.eqb k' k then Some v else dict_get k d.
Proof.
  induction d as [|[k0 v0] d IH]; simpl.
  - reflexivity.
  - destruct (String.eqb_spec k0 k') as [->|Hne]; simpl.
    + destruct (String.eqb k' k); reflexivity.
    + rewrite IH. destruct (String.eqb_spec k0 k) as [->|Hne'].
      * destruct (String.eqb_spec k' k); [congruence | reflexivity].
      * reflexivity.
Qed.

Lemma dict_keys_set k v d :
  dict_keys (dict_set k v d) =
  if dict_contains k d then dict_keys d else dict_keys d ++ [k].
Proof.
  unfold dict_contains.
  induction d as [|[k0 v0] d IH]; simpl; [reflexivity|].
  destruct (String.eqb_spec k0 k) as [->|Hne]; simpl; [reflexivity|].
  rewrite IH. destruct (dict_get k d); reflexivity.
Qed.

Lemma dict_get_None_keys k d : dict_get k d = None -> ~ In k (dict_keys d).
Proof.
  induction d as [|[k0 v0] d IH]; simpl; [tauto|].
  destruct (String.eqb_spec k0 k) as [->|Hne]; [discriminate|].
  intros H [Heq|Hin]; [congruence | now apply IH].
Qed.

Lemma dict_set_NoDup k v d :
  NoDup (dict_keys d) -> NoDup (dict_keys (dict_set k v d)).
Proof.
  intros Hnd. rewrite dict_keys_set. unfold dict_contains.
  destruct (dict_get k d) eqn:E; [assumption|].
  apply NoDup_app; [assumption | constructor; [simpl; tauto | constructor] |].
  intros x Hx [<-|[]]. now apply (dict_get_None_keys _ _ E).
Qed.

Lemma fold_dict_set_NoDup (items : list (string * V)) d :
  NoDup (dict_keys d) ->
  NoDup (dict_keys (fold_left (fun d kv => dict_set (fst kv) (snd kv) d) items d)).
Proof.
  revert d. induction items as [|[k v] items IH]; simpl; intros d Hd.
  - assumption.
  - apply IH, dict_set_NoDup, Hd.
Qed.

(** A dict built from items has pairwise distinct keys. *)
Lemma dict_of_items_NoDup (items : list (string * V)) :
  NoDup (dict_keys (dict_of_items items)).
Proof. apply fold_dict_set_NoDup. constructor. Qed.

Lemma dict_get_app k (l1 l2 : list (string * V)) :
  dict_get k (l1 ++ l2) =
  match dict_get k l1 with Some v => Some v | None => dict_get k l2 end.
Proof.
  induction l1 as [|[k0 v0] l1 IH]; simpl; [reflexivity|].
  destruct (String.eqb k0 k); [reflexivity | apply IH].
Qed.

Lemma fold_dict_set_get k (items : list (string * V)) d :
  dict_get k (fold_left (fun d kv => dict_set (fst kv) (snd kv) d) items d) =
  match dict_get k (List.rev items) with
  | Some v => Some v
  | None => dict_get k d
  end.
Proof.
  revert d. induction items as [|[k0 v0] items IH]; simpl; intros d.
  - reflexivity.
  - rewrite IH, dict_get_app, dict_get_set. simpl.
    destruct (dict_get k (List.rev items)); [reflexivity|].
    destruct (String.eqb k0 k); reflexivity.
Qed.

(** Looking a key up in a dict built from items finds the value of the
    last item with that key. *)
Lemma dict_of_items_get k (items : list (string * V)) :
  dict_get k (dict_of_items items) = dict_get k (List.rev items).
Proof.
  unfold dict_of_items. rewrite fold_dict_set_get.
  destruct (dict_get k (List.rev items)); reflexivity.
Qed.

Lemma dict_get_filter_key (g : string -> bool) k (l : list (string * V)) :
  dict_get k (filter (fun item => g (fst item)) l) =
  if g k then dict_get k l else None.
Proof.
  induction l as [|[k0 v0] l IH]; simpl.
  - destruct (g k); reflexivity.
  - destruct (g k0) eqn:Eg; simpl.
    + destruct (String.eqb_spec k0 k) as [->|Hne].
      * now rewrite Eg.
      * apply IH.
    + rewrite IH. destruct (String.eqb_spec k0 k) as [->|Hne].
      * now rewrite Eg.
      * reflexivity.
Qed.

(** With distinct keys, every item is found under its key. *)
Lemma dict_get_In k v d :
  NoDup (dict_keys d) -> In (k, v) d -> dict_get k d = Some v.
Proof.
  induction d as [|[k0 v0] d IH]; simpl; [tauto|].
  intros Hnd [Heq|Hin].
  - injection Heq as -> ->. now rewrite String.eqb_refl.
  - inversion Hnd as [|? ? Hnotin Hnd']; subst.
    destruct (String.eqb_spec k0 k) as [->|Hne].
    + exfalso. apply Hnotin. now apply (in_map fst) in Hin.
    + now apply IH.
Qed.
End DictFacts.

(** ** Vocabulary *)

Module VocabFacts.
Import BpeVocabM.

Lemma load_added_tokens_NoDup bpe explicit tjf :
  NoDup (dict_keys (load_added_tokens bpe explicit tjf)).
Proof.
  unfold load_added_tokens.
  destruct explicit as [members|]; [apply dict_of_items_NoDup|].
  destruct tjf as [tj|]; [apply dict_of_items_NoDup | constructor].
Qed.

(** What a successful construction has checked and stored. *)
Lemma check_and_build_Ok bpe added v :
  check_and_build bpe added = Ok v ->
  sorted (dict_values added) = range (len bpe) (len bpe + len added) /\
  bpe_tokenizer v = bpe /\
  added_tokens_list v = map fst (sorted_by snd added) /\
  vocab_size_base v = len bpe /\
  vocab_size v = (len bpe + len added)%Z.
Proof.
  unfold check_and_build.
  destruct (list_eq_dec _ _ _) as [Heq|Hne]; [|discriminate].
  intros H. injection H as <-. simpl.
  repeat split; try easy.
  unfold dict_items, len. now rewrite length_map, sorted_by_length.
Qed.

Lemma check_and_build_Raise bpe added :
  sorted (dict_values added) <> range (len bpe) (len bpe + len added) ->
  check_and_build bpe added =
  Raise "Exception" (consistency_message (len bpe) (sorted (dict_values added))).
Proof.
  intros Hne. unfold check_and_build.
  destruct (list_eq_dec _ _ _) as [Heq|_]; [congruence | reflexivity].
Qed.

Lemma enumerate_nth_from {A} (l : list A) (s i : nat) :
  nth_error (combine (seq s (List.length l)) l) i =
  option_map (fun x => ((s + i)%nat, x)) (nth_error l i).
Proof.
  revert s i. induction l as [|x l IH]; intros s [|i]; simpl; try reflexivity.
  - now rewrite Nat.add_0_r.
  - rewrite IH. now rewrite Nat.add_succ_r.
Qed.

Lemma enumerate_nth {A} (l : list A) (i : nat) :
  nth_error (enumerate l) i = option_map (fun x => (i, x)) (nth_error l i).
Proof. apply (enumerate_nth_from l 0 i). Qed.

Lemma bpe_tokens_length v :
  List.length (bpe_tokens v) = List.length (bpe_tokenizer v).
Proof.
  unfold bpe_tokens, enumerate, dict_keys.
  rewrite length_map, length_combine, length_seq, length_map. lia.
Qed.

Lemma bpe_tokens_nth v i :
  nth_error (bpe_tokens v) i =
  option_map (fun item => (encode_utf8 item, float_of_int 0, classify i item))
             (nth_error (dict_keys (bpe_tokenizer v)) i).
Proof.
  unfold bpe_tokens. rewrite nth_error_map, enumerate_nth.
  destruct (nth_error _ i); reflexivity.
Qed.

Lemma bpe_tokens_texts v :
  map text_of (bpe_tokens v) = dict_keys (bpe_tokenizer v).
Proof.
  apply nth_error_ext. intros i.
  rewrite nth_error_map, bpe_tokens_nth.
  destruct (nth_error _ i); reflexivity.
Qed.

Lemma added_tokens_texts v :
  map text_of (added_tokens v) = added_tokens_list v.
Proof.
  unfold added_tokens. rewrite map_map. apply map_id.
Qed.

Lemma all_tokens_texts v :
  map text_of (all_tokens v) =
  dict_keys (bpe_tokenizer v) ++ added_tokens_list v.
Proof.
  unfold all_tokens. now rewrite map_app, bpe_tokens_texts, added_tokens_texts.
Qed.

(** The j-th added token in id order carries the j-th id of the range
    that the constructor checked. *)
Lemma added_token_id bpe added v j text :
  NoDup (dict_keys added) ->
  check_and_build bpe added = Ok v ->
  nth_error (added_tokens_list v) j = Some text ->
  dict_get text added = Some (len bpe + Z.of_nat j)%Z.
Proof.
  intros Hnd Hok Hj.
  destruct (check_and_build_Ok _ _ Hok) as (Hids & _ & Hlist & _).
  rewrite Hlist, nth_error_map in Hj.
  destruct (nth_error (sorted_by snd added) j) as [[t id]|] eqn:Eitem;
    [|discriminate].
  simpl in Hj. injection Hj as ->.
  assert (Hid : nth_error (map snd (sorted_by snd added)) j = Some id)
    by now rewrite nth_error_map, Eitem.
  rewrite map_sorted_by in Hid. fold (dict_values added) in Hid.
  rewrite Hids in Hid.
  assert (Hlt : (j < Z.to_nat (len bpe + len added - len bpe))%nat).
  { rewrite <- range_length. apply nth_error_Some. congruence. }
  rewrite range_nth in Hid by assumption. injection Hid as <-.
  apply dict_get_In; [assumption|].
  apply Permutation_in with (l := sorted_by snd added).
  - symmetry. apply sorted_by_perm.
  - eapply nth_error_In, Eitem.
Qed.

(** When the base listing carries the ids 0, 1, ... in file order, the
    key at position i has id i. *)
Lemma base_token_id (bpe : dict Z) i text :
  NoDup (dict_keys bpe) ->
  dict_values bpe = range 0 (len bpe) ->
  nth_error (dict_keys bpe) i = Some text ->
  dict_get text bpe = Some (Z.of_nat i).
Proof.
  intros Hnd Hvals Hi.
  unfold dict_keys in Hi. rewrite nth_error_map in Hi.
  destruct (nth_error bpe i) as [[t id]|] eqn:Eitem; [|discriminate].
  simpl in Hi. injection Hi as ->.
  assert (Hid : nth_error (dict_values bpe) i = Some id)
    by (unfold dict_values; now rewrite nth_error_map, Eitem).
  rewrite Hvals in Hid.
  assert (Hlt : (i < Z.to_nat (len bpe - 0))%nat).
  { rewrite <- range_length. apply nth_error_Some. congruence. }
  rewrite range_nth in Hid by assumption. injection Hid as <-.
  apply dict_get_In; [assumption | eapply nth_error_In, Eitem].
Qed.

Lemma classify_cases i text :
  classify i text = NORMAL \/
  ((classify i text = UNKNOWN \/ classify i text = CONTROL \/
    classify i text = BYTE) /\
   (i <= 258)%nat /\ startswith text "<" = true /\ endswith text ">" = true).
Proof.
  unfold classify.
  destruct (Nat.leb_spec i 258) as [Hle|Hgt]; [|now left].
  destruct (startswith text "<"); [|now left].
  destruct (endswith text ">"); [|now left].
  cbn [andb].
  destruct ((i =? 0)%nat && String.eqb text "<unk>"); [now right; auto|].
  destruct ((i =? 1)%nat || (i =? 2)%nat); [now right; auto|].
  destruct ((3 <=? i)%nat && startswith text "<0x");
    [right; auto 6 | now left].
Qed.

End VocabFacts.

Section VocabularyClaims.
Import BpeVocabM VocabFacts.

Variable fname_tokenizer : tokenizer_json.
Variable fname_added_tokens : option (list (string * Z)).
Variable tokenizer_json_file : option tokenizer_json.

Let bpe : dict Z := dict_of_items (tj_model_vocab fname_tokenizer).
Let added : dict Z :=
  load_added_tokens bpe fname_added_tokens tokenizer_json_file.

(** C1, general part: when the sorted added ids are not the range
    [base, base+k), construction raises, and the message carries the
    number of ids, the bounds base and base+k-1, and the sorted ids. *)
Lemma init_rejects_noncontiguous :
  let base := len bpe in
  let k := List.length added in
  sorted (dict_values added) <> range base (base + Z.of_nat k) ->
  init fname_tokenizer fname_added_tokens tokenizer_json_file =
  Raise "Exception"
    ("Expected the " +++ str_nat k +++
     " added token ID(s) to be sequential in the range " +++
     str_Z base +++ " - " +++ str_Z (base + Z.of_nat k - 1) +++
     "; got " +++ str_list_Z (sorted (dict_values added))).
Proof.
  intros base k Hne. unfold init. fold bpe. fold added.
  rewrite check_and_build_Raise by exact Hne.
  unfold consistency_message.
  rewrite sorted_length. unfold dict_values. rewrite length_map.
  reflexivity.
Qed.

Variable v : BpeVocab.
Hypothesis Hbuilt :
  init fname_tokenizer fname_added_tokens tokenizer_json_file = Ok v.

Lemma built_base : bpe_tokenizer v = bpe.
Proof. now destruct (check_and_build_Ok _ _ Hbuilt) as (_ & ? & _). Qed.

Lemma built_added_length :
  List.length (added_tokens_list v) = List.length added.
Proof.
  destruct (check_and_build_Ok _ _ Hbuilt) as (_ & _ & -> & _).
  now rewrite length_map, sorted_by_length.
Qed.

Lemma built_texts :
  map text_of (all_tokens v) = dict_keys bpe ++ added_tokens_list v.
Proof. now rewrite all_tokens_texts, built_base. Qed.

Lemma built_base_position i :
  (i < List.length bpe)%nat ->
  nth_error (map text_of (all_tokens v)) i = nth_error (dict_keys bpe) i.
Proof.
  intros Hi. rewrite built_texts, nth_error_app1; [reflexivity|].
  unfold dict_keys. now rewrite length_map.
Qed.

Lemma built_added_position i text :
  (List.length bpe <= i)%nat ->
  nth_error (map text_of (all_tokens v)) i = Some text ->
  dict_get text added = Some (Z.of_nat i).
Proof.
  intros Hi Hnth. rewrite built_texts, nth_error_app2 in Hnth;
    unfold dict_keys in *; rewrite length_map in *; [|assumption].
  rewrite (@added_token_id bpe added v _ text
             (load_added_tokens_NoDup _ _ _) Hbuilt Hnth).
  f_equal. unfold len. lia.
Qed.

End VocabularyClaims.

(** C1: an added-token mapping whose sorted ids are not the contiguous
    range [vocab_size_base, vocab_size_base + k) makes the constructor
    raise; the message names the range vocab_size_base - vocab_size_base+k-1
    and the sorted ids.  With a base vocabulary of 100 tokens and added
    tokens <pad>:100, <sep>:105 the message names the range 100 - 101. *)
Theorem C1_noncontiguous_added_ids_raise :
  (forall fname_tokenizer fname_added_tokens tokenizer_json_file,
     let bpe := dict_of_items (tj_model_vocab fname_tokenizer) in
     let added := BpeVocabM.load_added_tokens bpe fname_added_tokens
                    tokenizer_json_file in
     let base := len bpe in
     let k := List.length added in
     sorted (dict_values added) <> range base (base + Z.of_nat k) ->
     BpeVocabM.init fname_tokenizer fname_added_tokens tokenizer_json_file =
     Raise "Exception"
       ("Expected the " +++ str_nat k +++
        " added token ID(s) to be sequential in the range " +++
        str_Z base +++ " - " +++ str_Z (base + Z.of_nat k - 1) +++
        "; got " +++ str_list_Z (sorted (dict_values added)))) /\
  len (dict_of_items (tj_model_vocab tj100)) = 100%Z /\
  BpeVocabM.init tj100 (Some pad_sep_gap) None =
  Raise "Exception"
    "Expected the 2 added token ID(s) to be sequential in the range 100 - 101; got [100, 105]".
Proof.
  split; [|split].
  - intros. now apply init_rejects_noncontiguous.
  - vm_compute. reflexivity.
  - vm_compute. reflexivity.
Qed.

Lemma C1_witness :
  sorted (dict_values (dict_of_items pad_sep_gap)) <> range 100 (100 + 2) /\
  BpeVocabM.init tj100 (Some pad_sep_gap) None =
  Raise "Exception"
    "Expected the 2 added token ID(s) to be sequential in the range 100 - 101; got [100, 105]".
Proof.
  split.
  - vm_compute. discriminate.
  - apply (proj1 C1_noncontiguous_added_ids_raise tj100 (Some pad_sep_gap) None).
    vm_compute. discriminate.
Defined.

(** C2, as the claim states it, fails: with the base vocabulary listed as
    b:1, a:0 the vocabulary is built and position 0 holds b, whose id is 1. *)
Lemma C2_counterexample :
  ~ (forall v i text,
       BpeVocabM.init tj_swapped None None = Ok v ->
       nth_error (map BpeVocabM.text_of (BpeVocabM.all_tokens v)) i = Some text ->
       dict_get text (dict_of_items (tj_model_vocab tj_swapped)) =
       Some (Z.of_nat i)).
Proof.
  intros H.
  destruct (BpeVocabM.init tj_swapped None None) as [v| |] eqn:E;
    try (vm_compute in E; discriminate).
  specialize (H v 0%nat "b"%string eq_refl).
  vm_compute in E. injection E as <-.
  specialize (H eq_refl). vm_compute in H. discriminate.
Qed.

(** C2, amended: in a built vocabulary, positions below vocab_size_base hold
    the base tokens in the order the tokenizer descriptor lists them, and
    the token at such a position i has id i whenever that listing carries
    the ids 0, 1, ..., vocab_size_base-1 in this order; every position i
    from vocab_size_base on holds the added token whose id is i. *)
Theorem C2_positions_of_built_vocabulary :
  forall fname_tokenizer fname_added_tokens tokenizer_json_file v,
    BpeVocabM.init fname_tokenizer fname_added_tokens tokenizer_json_file = Ok v ->
    let bpe := dict_of_items (tj_model_vocab fname_tokenizer) in
    let added := BpeVocabM.load_added_tokens bpe fname_added_tokens
                   tokenizer_json_file in
    let texts := map BpeVocabM.text_of (BpeVocabM.all_tokens v) in
    vocab_size_base v = len bpe /\
    List.length texts = (List.length bpe + List.length added)%nat /\
    (forall i, (i < List.length bpe)%nat ->
               nth_error texts i = nth_error (dict_keys bpe) i) /\
    (dict_values bpe = range 0 (len bpe) ->
     forall i text, (i < List.length bpe)%nat ->
                    nth_error texts i = Some text ->
                    dict_get text bpe = Some (Z.of_nat i)) /\
    (forall i text, (List.length bpe <= i)%nat ->
                    nth_error texts i = Some text ->
                    dict_get text added = Some (Z.of_nat i)).
Proof.
  intros ft fa tf v Hbuilt bpe added texts.
  split; [|split; [|split; [|split]]].
  - now destruct (VocabFacts.check_and_build_Ok _ _ Hbuilt) as (_ & _ & _ & ? & _).
  - unfold texts. rewrite (built_texts _ _ _ Hbuilt), length_app.
    rewrite (built_added_length _ _ _ Hbuilt).
    unfold dict_keys. now rewrite length_map.
  - intros i Hi. exact (built_base_position _ _ _ Hbuilt Hi).
  - intros Hvals i text Hi Hnth.
    unfold texts in Hnth. rewrite (built_base_position _ _ _ Hbuilt Hi) in Hnth.
    apply VocabFacts.base_token_id; [apply dict_of_items_NoDup | assumption..].
  - intros i text Hi Hnth. now apply (built_added_position _ _ _ Hbuilt).
Qed.

Lemma C2_witness :
  exists v,
    BpeVocabM.init tj100 (Some pad_sep) None = Ok v /\
    nth_error (map BpeVocabM.text_of (BpeVocabM.all_tokens v)) 101 =
      Some "<sep>"%string /\
    dict_get "<sep>"
      (BpeVocabM.load_added_tokens (dict_of_items (tj_model_vocab tj100))
         (Some pad_sep) None) = Some 101%Z.
Proof.
  destruct (BpeVocabM.init tj100 (Some pad_sep) None) as [v| |] eqn:E;
    try (vm_compute in E; discriminate).
  exists v. split; [reflexivity|].
  assert (Hnth : nth_error (map BpeVocabM.text_of (BpeVocabM.all_tokens v)) 101 =
                 Some "<sep>"%string).
  { vm_compute in E. injection E as <-. vm_compute. reflexivity. }
  split; [exact Hnth|].
  destruct (C2_positions_of_built_vocabulary tj100 (Some pad_sep) None E)
    as (_ & _ & _ & _ & Hadded).
  apply (Hadded 101%nat "<sep>"%string); [vm_compute; lia | exact Hnth].
Defined.


(** C5: a built vocabulary has vocab_size_base + added_count entries, its
    text, score and type columns have that common length, every base token
    carries score 0.0 and the type of the heuristic, which leaves NORMAL
    only for an index of at most 258 and a text that starts with "<" and
    ends with ">" (and then gives UNKNOWN, CONTROL or BYTE), and the added
    tokens follow all base tokens, each as (text, -1000.0, USER_DEFINED),
    in ascending id order. *)
Theorem C5_three_way_aligned_vocabulary :
  forall fname_tokenizer fname_added_tokens tokenizer_json_file v,
    BpeVocabM.init fname_tokenizer fname_added_tokens tokenizer_json_file = Ok v ->
    let bpe := dict_of_items (tj_model_vocab fname_tokenizer) in
    let added := BpeVocabM.load_added_tokens bpe fname_added_tokens
                   tokenizer_json_file in
    let all := BpeVocabM.all_tokens v in
    List.length all = (List.length bpe + List.length added)%nat /\
    vocab_size v = (vocab_size_base v + len added)%Z /\
    vocab_size v = Z.of_nat (List.length all) /\
    (List.length (map BpeVocabM.text_of all) = List.length all /\
     List.length (map BpeVocabM.score_of all) = List.length all /\
     List.length (map BpeVocabM.type_of all) = List.length all) /\
    (forall i, (i < List.length bpe)%nat ->
       exists text,
         nth_error (dict_keys bpe) i = Some text /\
         nth_error all i = Some (text, float_of_int 0, BpeVocabM.classify i text)) /\
    (forall i text,
       BpeVocabM.classify i text = NORMAL \/
       ((BpeVocabM.classify i text = UNKNOWN \/
         BpeVocabM.classify i text = CONTROL \/
         BpeVocabM.classify i text = BYTE) /\
        (i <= 258)%nat /\
        startswith text "<" = true /\ endswith text ">" = true)) /\
    (forall j, (j < List.length added)%nat ->
       exists text,
         nth_error all (List.length bpe + j) =
           Some (text, float_of_int (-1000), USER_DEFINED) /\
         dict_get text added = Some (len bpe + Z.of_nat j)%Z).
Proof.
  intros ft fa tf v Hbuilt bpe added all.
  destruct (VocabFacts.check_and_build_Ok _ _ Hbuilt)
    as (Hids & Hbase & Hlist & Hsize_base & Hsize).
  fold bpe in Hbase, Hsize_base, Hsize. fold added in Hids, Hlist, Hsize.
  assert (Hlen_base : List.length (BpeVocabM.bpe_tokens v) = List.length bpe)
    by now rewrite VocabFacts.bpe_tokens_length, Hbase.
  assert (Hlen_added : List.length (BpeVocabM.added_tokens v) = List.length added).
  { unfold BpeVocabM.added_tokens.
    now rewrite length_map, (built_added_length _ _ _ Hbuilt). }
  assert (Hlen : List.length all = (List.length bpe + List.length added)%nat).
  { unfold all, BpeVocabM.all_tokens. rewrite length_app. lia. }
  split; [exact Hlen|].
  split; [rewrite Hsize, Hsize_base; reflexivity|].
  split; [rewrite Hsize, Hlen; unfold len; lia|].
  split; [now rewrite !length_map|].
  split; [|split].
  - intros i Hi.
    destruct (nth_error (dict_keys bpe) i) as [text|] eqn:Etext.
    + exists text. split; [reflexivity|].
      unfold all, BpeVocabM.all_tokens.
      rewrite nth_error_app1 by lia.
      rewrite VocabFacts.bpe_tokens_nth, Hbase. fold bpe. now rewrite Etext.
    + apply nth_error_None in Etext.
      unfold dict_keys in Etext. rewrite length_map in Etext. lia.
  - apply VocabFacts.classify_cases.
  - intros j Hj.
    destruct (nth_error (added_tokens_list v) j) as [text|] eqn:Etext.
    + exists text. split.
      * unfold all, BpeVocabM.all_tokens.
        rewrite nth_error_app2 by lia.
        replace (List.length bpe + j - List.length (BpeVocabM.bpe_tokens v))%nat
          with j by lia.
        unfold BpeVocabM.added_tokens. now rewrite nth_error_map, Etext.
      * exact (@VocabFacts.added_token_id bpe added v j text
                 (VocabFacts.load_added_tokens_NoDup _ _ _) Hbuilt Etext).
    + apply nth_error_None in Etext.
      rewrite (built_added_length _ _ _ Hbuilt) in Etext. fold bpe added in Etext.
      lia.
Qed.

Lemma C5_witness :
  exists v,
    BpeVocabM.init tj100 (Some pad_sep) None = Ok v /\
    List.length (BpeVocabM.all_tokens v) = 102%nat /\
    nth_error (BpeVocabM.all_tokens v) 101 =
      Some ("<sep>"%string, float_of_int (-1000), USER_DEFINED).
Proof.
  destruct (BpeVocabM.init tj100 (Some pad_sep) None) as [v| |] eqn:E;
    try (vm_compute in E; discriminate).
  exists v. split; [reflexivity|].
  destruct (C5_three_way_aligned_vocabulary tj100 (Some pad_sep) None E)
    as (Hlen & _ & _ & _ & _ & _ & Hadded).
  split; [exact Hlen|].
  destruct (Hadded 1%nat) as (text & Hnth & Hid); [vm_compute; lia|].
  vm_compute in E. injection E as <-. exact eq_refl.
Defined.

(** C6: an explicit added-tokens file is taken as it is, so that every one
    of its keys is found with its last value whether or not the base
    vocabulary has the same text; without an explicit file the embedded
    listing of tokenizer.json is used and a text is found exactly when it
    is not a key of the base vocabulary, with the value of its last
    listing entry; with neither source (no tokenizer.json file, or no
    embedded listing) the mapping is empty. *)
Theorem C6_source_of_added_tokens :
  forall (bpe : dict Z),
    (forall members tokenizer_json_file,
       BpeVocabM.load_added_tokens bpe (Some members) tokenizer_json_file =
         dict_of_items members /\
       forall text,
         dict_get text
           (BpeVocabM.load_added_tokens bpe (Some members) tokenizer_json_file) =
         dict_get text (List.rev members)) /\
    (forall vocab listing,
       let tj := {| tj_model_vocab := vocab; tj_added_tokens := Some listing |} in
       BpeVocabM.load_added_tokens bpe None (Some tj) =
         dict_of_items
           (filter (fun item => negb (dict_contains (fst item) bpe)) listing) /\
       forall text,
         dict_get text (BpeVocabM.load_added_tokens bpe None (Some tj)) =
         if dict_contains text bpe then None
         else dict_get text (List.rev listing)) /\
    BpeVocabM.load_added_tokens bpe None None = [] /\
    (forall vocab,
       BpeVocabM.load_added_tokens bpe None
         (Some {| tj_model_vocab := vocab; tj_added_tokens := None |}) = []).
Proof.
  intros bpe. split; [|split; [|split]].
  - intros members tjf. split; [reflexivity|].
    intros text. apply dict_of_items_get.
  - intros vocab listing tj. split; [reflexivity|].
    intros text. unfold BpeVocabM.load_added_tokens, tj. simpl.
    rewrite dict_of_items_get, <- filter_rev.
    rewrite (dict_get_filter_key (fun k => negb (dict_contains k bpe))).
    destruct (dict_contains text bpe); reflexivity.
  - reflexivity.
  - reflexivity.
Qed.


(** ** Dtype policy *)

Module PolicyFacts.
Import Tensor Policy.

Lemma normalize_dtype data :
  t_dtype (normalize data) =
  match t_dtype data with
  | float16 => float16
  | _ => float32
  end.
Proof. destruct data as [dt sh]. destruct dt; reflexivity. Qed.

Lemma normalize_shape data :
  t_shape (normalize data) = filter not_one (t_shape data).
Proof. destruct data as [dt sh]. destruct dt; reflexivity. Qed.

Lemma apply_ftype_shape ftype name data :
  t_shape (apply_ftype ftype name data) = t_shape data.
Proof.
  unfold apply_ftype.
  repeat match goal with
         | |- context [if ?c then _ else _] => destruct c
         end; reflexivity.
Qed.

Lemma filter_idem {A} (f : A -> bool) (l : list A) :
  filter f (filter f l) = filter f l.
Proof.
  induction l as [|x l IH]; simpl; [reflexivity|].
  destruct (f x) eqn:E; simpl; [rewrite E; f_equal|]; exact IH.
Qed.

(** The element type [convert] gives is the one [decide] gives for the
    target, the native element type, the rank after squeezing and the
    ".weight" test. *)
Lemma convert_dtype ftype name data :
  t_dtype (convert ftype name data) =
  decide ftype (t_dtype data) (n_dims data) (endswith name ".weight").
Proof.
  unfold convert, n_dims.
  pose proof (normalize_dtype data) as Hnd.
  destruct (normalize data) as [ndt nsh]. simpl in Hnd. subst ndt.
  unfold apply_ftype, decide, astype, to. simpl t_dtype. simpl t_shape.
  destruct (Z.eqb_spec ftype 0) as [->|H0].
  - destruct (t_dtype data); reflexivity.
  - destruct (Z.eqb_spec ftype 1) as [->|H1].
    + destruct (t_dtype data); simpl;
        destruct (List.length nsh =? 1)%nat eqn:E1;
        destruct (List.length nsh =? 2)%nat eqn:E2;
        destruct (endswith name ".weight"); try reflexivity;
        apply Nat.eqb_eq in E1, E2; congruence.
    + destruct (t_dtype data); reflexivity.
Qed.

Lemma convert_shape ftype name data :
  t_shape (convert ftype name data) = filter not_one (t_shape data).
Proof. unfold convert. now rewrite apply_ftype_shape, normalize_shape. Qed.

Lemma tensor_ext (x y : tensor) :
  t_dtype x = t_dtype y -> t_shape x = t_shape y -> x = y.
Proof. destruct x, y; simpl; congruence. Qed.

Lemma decide_32_is_float32 native rank w : decide 0 native rank w = float32.
Proof. destruct native; reflexivity. Qed.

End PolicyFacts.

(** C3: the dtype policy.  The rank is the one the code consults, the
    length of the shape of the array of line 283; [nd] is the tensor after
    the normalisation of lines 280-283.  Any element type other than
    float16 and float32 becomes float32; under target 0 a float16 tensor
    becomes float32 whatever its rank and any other keeps its type; under
    target 1 a float16 tensor of rank 1 becomes float32, a float32 tensor
    of rank 2 whose name ends with ".weight" becomes float16 and every
    other combination keeps its type; whatever the target, a tensor of
    rank other than 2 that comes out as float16 was float16 already; and
    whatever its element type, the step for a tensor whose name is dropped
    or mapped ends normally with nothing on stderr. *)
Theorem C3_dtype_policy :
  forall name data,
    let nd := Policy.normalize data in
    let rank := List.length (t_shape nd) in
    (t_dtype data <> float16 -> t_dtype data <> float32 ->
     t_dtype nd = float32) /\
    (t_dtype data = float16 \/ t_dtype data = float32 ->
     t_dtype nd = t_dtype data) /\
    (t_dtype nd = float16 ->
     t_dtype (Policy.convert 0 name data) = float32) /\
    (t_dtype nd <> float16 ->
     t_dtype (Policy.convert 0 name data) = t_dtype nd) /\
    (t_dtype nd = float16 -> rank = 1%nat ->
     t_dtype (Policy.convert 1 name data) = float32) /\
    (t_dtype nd = float32 -> rank = 2%nat -> endswith name ".weight" = true ->
     t_dtype (Policy.convert 1 name data) = float16) /\
    (~ (t_dtype nd = float16 /\ rank = 1%nat) ->
     ~ (t_dtype nd = float32 /\ rank = 2%nat /\ endswith name ".weight" = true) ->
     t_dtype (Policy.convert 1 name data) = t_dtype nd) /\
    (forall ftype, rank <> 2%nat ->
       t_dtype (Policy.convert ftype name data) = float16 ->
       t_dtype nd = float16 /\ t_dtype data = float16) /\
    (forall (get_name : string -> option string) a,
       unmappable get_name name = false ->
       snd (tensor_step get_name a name data) = Ok tt /\
       stderr (fst (tensor_step get_name a name data)) = []).
Proof.
  intros name data nd rank.
  assert (Hnd : t_dtype nd = match t_dtype data with
                             | float16 => float16 | _ => float32 end)
    by apply PolicyFacts.normalize_dtype.
  assert (Hc : forall ftype, t_dtype (Policy.convert ftype name data) =
                 Policy.decide ftype (t_dtype data) rank (endswith name ".weight"))
    by (intros; apply PolicyFacts.convert_dtype).
  repeat apply conj.
  - intros H16 H32. rewrite Hnd. destruct (t_dtype data); congruence.
  - intros [H|H]; rewrite Hnd, H; reflexivity.
  - intros _. rewrite Hc. apply PolicyFacts.decide_32_is_float32.
  - intros Hne. rewrite Hc, PolicyFacts.decide_32_is_float32.
    rewrite Hnd in *. destruct (t_dtype data); congruence.
  - intros H16 Hr. rewrite Hc, Hr. rewrite Hnd in H16.
    destruct (t_dtype data); try discriminate. reflexivity.
  - intros H32 Hr Hw. rewrite Hc, Hr, Hw. rewrite Hnd in H32.
    destruct (t_dtype data); try discriminate; reflexivity.
  - intros Hup Hdown. rewrite Hc. rewrite Hnd in *. unfold Policy.decide.
    destruct (t_dtype data); simpl.
    1: destruct (Nat.eqb_spec rank 1);
         [exfalso; apply Hup; now split | reflexivity].
    all: destruct (Nat.eqb_spec rank 2); simpl; [|reflexivity].
    all: destruct (endswith name ".weight");
         [exfalso; apply Hdown; auto | reflexivity].
  - intros ftype Hr Hout. rewrite Hc in Hout. rewrite Hnd.
    unfold Policy.decide in Hout.
    destruct (Nat.eqb_spec rank 2) as [|_]; [contradiction|].
    destruct (t_dtype data); simpl in Hout;
      destruct (ftype =? 0)%Z; try discriminate;
      destruct (ftype =? 1)%Z; try discriminate;
      destruct (rank =? 1)%nat; try discriminate; split; reflexivity.
  - intros get_name a. unfold unmappable, tensor_step.
    destruct (unwanted name); [split; reflexivity|].
    destruct (get_name name); [split; reflexivity | discriminate].
Qed.

Lemma C3_witness :
  t_dtype (Policy.convert 1 "layer.0.weight" (sample_weight [4; 8]%nat)) = float16 /\
  t_dtype (Policy.convert 1 "layer.0.weight" (sample_weight [8]%nat)) = float32.
Proof.
  split.
  - apply (C3_dtype_policy "layer.0.weight" (sample_weight [4; 8]%nat));
      reflexivity.
  - apply (C3_dtype_policy "layer.0.weight" (sample_weight [8]%nat));
      [intros [H _]; discriminate H | intros (_ & H & _); discriminate H].
Defined.

(** C8: the element type that comes out is a function of the target, the
    native element type, the rank and the ".weight" test alone (it is
    [decide] of these four, so equal inputs give equal outputs), and under
    the 32-bit target deciding twice is deciding once; on tensors,
    converting a converted tensor again changes nothing. *)
Theorem C8_decide_pure_and_idempotent :
  (forall ftype name data,
     t_dtype (Policy.convert ftype name data) =
     Policy.decide ftype (t_dtype data) (Policy.n_dims data)
       (endswith name ".weight")) /\
  (forall ftype name data name' data',
     t_dtype data = t_dtype data' ->
     Policy.n_dims data = Policy.n_dims data' ->
     endswith name ".weight" = endswith name' ".weight" ->
     t_dtype (Policy.convert ftype name data) =
     t_dtype (Policy.convert ftype name' data')) /\
  (forall native rank w,
     Policy.decide 0 (Policy.decide 0 native rank w) rank w =
     Policy.decide 0 native rank w) /\
  (forall name data,
     Policy.convert 0 name (Policy.convert 0 name data) =
     Policy.convert 0 name data).
Proof.
  split; [|split; [|split]].
  - apply PolicyFacts.convert_dtype.
  - intros ftype name data name' data' Hd Hr Hw.
    now rewrite !PolicyFacts.convert_dtype, Hd, Hr, Hw.
  - intros. now rewrite !PolicyFacts.decide_32_is_float32.
  - intros name data. apply PolicyFacts.tensor_ext.
    + now rewrite !PolicyFacts.convert_dtype, !PolicyFacts.decide_32_is_float32.
    + now rewrite !PolicyFacts.convert_shape, PolicyFacts.filter_idem.
Qed.

Lemma C8_witness :
  t_dtype (Policy.convert 1 "a.weight" (sample_weight [4; 8]%nat)) =
  t_dtype (Policy.convert 1 "b.weight" (sample_weight [1; 2; 3]%nat)).
Proof.
  apply (proj1 (proj2 C8_decide_pure_and_idempotent)); reflexivity.
Defined.




(** ** Traces and loops *)

Lemma bind_fst {A B} (m : M A) (f : A -> M B) :
  fst (bind m f) =
  fst m ++ match snd m with Ok x => fst (f x) | _ => [] end.
Proof.
  destruct m as [t [x|e msg|s]]; simpl.
  - destruct (f x); reflexivity.
  - now rewrite app_nil_r.
  - now rewrite app_nil_r.
Qed.

Lemma bind_snd {A B} (m : M A) (f : A -> M B) :
  snd (bind m f) =
  match snd m with
  | Ok x => snd (f x)
  | Raise e msg => Raise e msg
  | SysExit s => SysExit s
  end.
Proof.
  destruct m as [t [x|e msg|s]]; simpl; try reflexivity.
  destruct (f x); reflexivity.
Qed.

Lemma bind_ret_l {A B} (x : A) (f : A -> M B) : bind (ret x) f = f x.
Proof. unfold bind, ret. now destruct (f x). Qed.

Lemma bind_emit {B} (e : event) (f : unit -> M B) :
  bind (emit e) f = (e :: fst (f tt), snd (f tt)).
Proof. unfold bind, emit. now destruct (f tt). Qed.

Lemma M_ext {A} (m : M A) t r : fst m = t -> snd m = r -> m = (t, r).
Proof. destruct m; simpl; congruence. Qed.

Lemma first_true {A} (p : A -> bool) (l : list A) :
  (forall x, In x l -> p x = false) \/
  exists pre x post,
    l = pre ++ x :: post /\ (forall y, In y pre -> p y = false) /\ p x = true.
Proof.
  induction l as [|x l [IH|(pre & y & post & -> & Hpre & Hy)]].
  - left. intros x [].
  - destruct (p x) eqn:E.
    + right. exists [], x, l. repeat split; [intros y []| exact E].
    + left. intros y [<-|Hin]; [exact E | now apply IH].
  - destruct (p x) eqn:E.
    + right. exists [], x, (pre ++ y :: post). repeat split; [intros z []| exact E].
    + right. exists (x :: pre), y, post. repeat split; [|exact Hy].
      intros z [<-|Hin]; [exact E | now apply Hpre].
Qed.

Section Loops.
Variable A : Type.

Lemma for_each_all_ok (body : A -> M unit) (l : list A) :
  (forall x, In x l -> snd (body x) = Ok tt) ->
  for_each body l = (flat_map (fun x => fst (body x)) l, Ok tt).
Proof.
  induction l as [|x l IH]; intros Hok; [reflexivity|].
  simpl. apply M_ext.
  - rewrite bind_fst, (Hok x) by now left.
    rewrite IH by (intros; apply Hok; now right). reflexivity.
  - rewrite bind_snd, (Hok x) by now left.
    rewrite IH by (intros; apply Hok; now right). reflexivity.
Qed.

Lemma for_each_first_exit (body : A -> M unit) pre x post s :
  (forall y, In y pre -> snd (body y) = Ok tt) ->
  snd (body x) = SysExit s ->
  for_each body (pre ++ x :: post) =
  (flat_map (fun y => fst (body y)) pre ++ fst (body x), SysExit s).
Proof.
  induction pre as [|y pre IH]; intros Hok Hx; simpl.
  - apply M_ext; [rewrite bind_fst | rewrite bind_snd]; rewrite Hx;
      [apply app_nil_r | reflexivity].
  - apply M_ext.
    + rewrite bind_fst, (Hok y) by now left.
      rewrite IH by (try (intros; apply Hok; right); assumption).
      simpl. now rewrite app_assoc.
    + rewrite bind_snd, (Hok y) by now left.
      now rewrite IH by (try (intros; apply Hok; right); assumption).
Qed.

Lemma for_break_all_false (body : A -> M bool) (l : list A) :
  (forall x, In x l -> snd (body x) = Ok false) ->
  for_break body l = (flat_map (fun x => fst (body x)) l, Ok tt).
Proof.
  induction l as [|x l IH]; intros Hok; [reflexivity|].
  simpl. apply M_ext.
  - rewrite bind_fst, (Hok x) by now left.
    rewrite IH by (intros; apply Hok; now right). reflexivity.
  - rewrite bind_snd, (Hok x) by now left.
    rewrite IH by (intros; apply Hok; now right). reflexivity.
Qed.

Lemma for_break_first_exit (body : A -> M bool) pre x post s :
  (forall y, In y pre -> snd (body y) = Ok false) ->
  snd (body x) = SysExit s ->
  for_break body (pre ++ x :: post) =
  (flat_map (fun y => fst (body y)) pre ++ fst (body x), SysExit s).
Proof.
  induction pre as [|y pre IH]; intros Hok Hx; simpl.
  - apply M_ext; [rewrite bind_fst | rewrite bind_snd]; rewrite Hx;
      [apply app_nil_r | reflexivity].
  - apply M_ext.
    + rewrite bind_fst, (Hok y) by now left.
      rewrite IH by (try (intros; apply Hok; right); assumption).
      simpl. now rewrite app_assoc.
    + rewrite bind_snd, (Hok y) by now left.
      now rewrite IH by (try (intros; apply Hok; right); assumption).
Qed.

Lemma for_break_at_once (body : A -> M bool) (l : list A) :
  (forall x, body x = ret true) -> for_break body l = ret tt.
Proof. intros H. destruct l as [|x l]; simpl; [|rewrite H]; reflexivity. Qed.
End Loops.

Lemma stdout_app t t' : stdout (t ++ t') = stdout t ++ stdout t'.
Proof. apply flat_map_app. Qed.
Lemma stderr_app t t' : stderr (t ++ t') = stderr t ++ stderr t'.
Proof. apply flat_map_app. Qed.
Lemma loads_app t t' : loads (t ++ t') = loads t ++ loads t'.
Proof. apply flat_map_app. Qed.
Lemma emitted_app t t' : emitted (t ++ t') = emitted t ++ emitted t'.
Proof. apply flat_map_app. Qed.
Lemma shard_events_app t t' :
  shard_events (t ++ t') = shard_events t ++ shard_events t'.
Proof. apply filter_app. Qed.

Lemma loads_shard_events t : loads (shard_events t) = loads t.
Proof.
  induction t as [|e t IH]; [reflexivity|].
  destruct e; simpl; try exact IH. now rewrite IH.
Qed.

Section Only.
Variable P : event -> bool.

Lemma only_ret {A} (x : A) : only P (ret x).
Proof. reflexivity. Qed.

Lemma only_lift {A} (r : result A) : only P (lift r).
Proof. reflexivity. Qed.

Lemma only_emit e : P e = true -> only P (emit e).
Proof. unfold only. simpl. now intros ->. Qed.

Lemma only_bind {A B} (m : M A) (f : A -> M B) :
  only P m -> (forall x, only P (f x)) -> only P (bind m f).
Proof.
  unfold only. intros Hm Hf. rewrite bind_fst, forallb_app, Hm. simpl.
  destruct (snd m); [apply Hf | reflexivity | reflexivity].
Qed.

Lemma only_for_each {A} (body : A -> M unit) l :
  (forall x, only P (body x)) -> only P (for_each body l).
Proof.
  intros Hb. induction l as [|x l IH]; [reflexivity|].
  simpl. apply only_bind; [apply Hb | intros _; exact IH].
Qed.

Lemma only_for_break {A} (body : A -> M bool) l :
  (forall x, only P (body x)) -> only P (for_break body l).
Proof.
  intros Hb. induction l as [|x l IH]; [reflexivity|].
  simpl. apply only_bind; [apply Hb | intros [|]; [reflexivity | exact IH]].
Qed.
End Only.

Lemma returns_any {A} (m : M A) : returns (fun _ => True) m.
Proof. intros x _. exact I. Qed.

Lemma returns_bind {A B} (P : A -> Prop) (Q : B -> Prop) m (f : A -> M B) :
  returns P m -> (forall x, P x -> returns Q (f x)) -> returns Q (bind m f).
Proof.
  intros Hm Hf y. rewrite bind_snd.
  destruct (snd m) as [x| |] eqn:E; [|discriminate..].
  apply Hf, Hm, E.
Qed.

Ltac skip_bind := eapply returns_bind; [apply returns_any | intros ? _].

Ltac only_tac :=
  repeat first
    [ apply only_ret
    | apply only_lift
    | apply only_emit; reflexivity
    | apply only_for_each; intros ?
    | apply only_for_break; intros ?
    | apply only_bind; [|intros ?]
    | match goal with
      | |- only _ (if ?c then _ else _) => destruct c
      | |- only _ (match ?x with _ => _ end) => destruct x
      end ].

Lemma not_shard_spec t :
  forallb not_shard t = true -> shard_events t = [].
Proof.
  induction t as [|e t IH]; [reflexivity|].
  simpl. intros H. apply andb_prop in H as [He Ht].
  destruct e; try discriminate; simpl; now apply IH.
Qed.

Lemma not_stderr_spec t : forallb not_stderr t = true -> stderr t = [].
Proof.
  induction t as [|e t IH]; [reflexivity|].
  simpl. intros H. apply andb_prop in H as [He Ht].
  destruct e; try discriminate; simpl; now apply IH.
Qed.

Lemma not_load_spec t : forallb not_load t = true -> loads t = [].
Proof.
  induction t as [|e t IH]; [reflexivity|].
  simpl. intros H. apply andb_prop in H as [He Ht].
  destruct e; try discriminate; simpl; now apply IH.
Qed.

(** ** The script *)

Section ScriptFacts.
Variable get_name : string -> option string.
Variable a : args.
Variable d : model_dir.

Let step (nt : string * tensor) : M unit :=
  tensor_step get_name a (fst nt) (snd nt).

Lemma tensor_step_unwanted name data :
  unwanted name = true -> tensor_step get_name a name data = ret tt.
Proof. unfold tensor_step. now intros ->. Qed.

Lemma tensor_step_mapped name data new_name :
  unwanted name = false -> get_name name = Some new_name ->
  snd (tensor_step get_name a name data) = Ok tt /\
  shard_events (fst (tensor_step get_name a name data)) =
    [AddTensor new_name (Policy.convert (ftype a) name data)] /\
  emitted (fst (tensor_step get_name a name data)) =
    [(new_name, Policy.convert (ftype a) name data)].
Proof. unfold tensor_step. intros -> ->. repeat split. Qed.

Lemma tensor_step_unmapped name data :
  unwanted name = false -> get_name name = None ->
  tensor_step get_name a name data = ([Print (cannot_map name)], sys_exit None).
Proof. unfold tensor_step. intros -> ->. reflexivity. Qed.

Lemma unmappable_false name :
  unmappable get_name name = false ->
  unwanted name = true \/
  (unwanted name = false /\ exists new_name, get_name name = Some new_name).
Proof.
  unfold unmappable. destruct (unwanted name); [now left|].
  destruct (get_name name) as [n|]; [|discriminate].
  right. split; [reflexivity | now exists n].
Qed.

Lemma unmappable_true name :
  unmappable get_name name = true ->
  unwanted name = false /\ get_name name = None.
Proof.
  unfold unmappable. destruct (unwanted name); [discriminate|].
  destruct (get_name name); [discriminate | now split].
Qed.

Lemma step_ok nt :
  unmappable get_name (fst nt) = false ->
  snd (step nt) = Ok tt /\
  shard_events (fst (step nt)) =
    map (fun nt : string * tensor => AddTensor (fst nt) (snd nt))
        (sent_tensors get_name a [nt]) /\
  emitted (fst (step nt)) = sent_tensors get_name a [nt].
Proof.
  intros H. unfold step, sent_tensors. simpl.
  destruct (unmappable_false _ H) as [Hu|(Hu & n & Hn)].
  - rewrite tensor_step_unwanted, Hu by assumption. repeat split.
  - destruct (tensor_step_mapped (snd nt) Hu Hn) as (H1 & H2 & H3).
    rewrite H1, H2, H3, Hu, Hn. repeat split.
Qed.

Lemma sent_tensors_cons nt part :
  sent_tensors get_name a (nt :: part) =
  sent_tensors get_name a [nt] ++ sent_tensors get_name a part.
Proof. unfold sent_tensors. simpl. now rewrite app_nil_r. Qed.

(** A part all of whose wanted names map is sent whole. *)
Lemma tensor_loop_ok part :
  (forall nt, In nt part -> unmappable get_name (fst nt) = false) ->
  snd (for_each step part) = Ok tt /\
  shard_events (fst (for_each step part)) =
    map (fun nt : string * tensor => AddTensor (fst nt) (snd nt))
        (sent_tensors get_name a part) /\
  emitted (fst (for_each step part)) = sent_tensors get_name a part.
Proof.
  induction part as [|nt part IH]; intros Hall; [repeat split|].
  destruct (step_ok nt (Hall nt (or_introl eq_refl))) as (H1 & H2 & H3).
  destruct IH as (I1 & I2 & I3); [intros; apply Hall; now right|].
  simpl for_each. rewrite bind_snd, bind_fst, H1.
  rewrite shard_events_app, emitted_app, sent_tensors_cons, map_app.
  rewrite H2, H3, I2, I3. repeat split. exact I1.
Qed.

(** The first wanted name that does not map ends the run. *)
Lemma tensor_loop_exit pre name data post :
  (forall nt, In nt pre -> unmappable get_name (fst nt) = false) ->
  unmappable get_name name = true ->
  for_each step (pre ++ (name, data) :: post) =
  (fst (for_each step pre) ++ [Print (cannot_map name)], sys_exit None).
Proof.
  intros Hpre Hname. destruct (unmappable_true _ Hname) as [Hu Hn].
  rewrite for_each_first_exit with (s := 0%Z).
  - rewrite (for_each_all_ok step pre).
    + unfold step at 2. simpl. now rewrite tensor_step_unmapped.
    + intros nt Hin. now apply step_ok, Hpre.
  - intros nt Hin. now apply step_ok, Hpre.
  - unfold step. simpl. now rewrite tensor_step_unmapped.
Qed.

Lemma step_only_quiet nt : only not_stderr (step nt) /\ only not_load (step nt).
Proof. unfold step, tensor_step, exit. split; only_tac. Qed.

Lemma tensor_loop_quiet part :
  stderr (fst (for_each step part)) = [] /\
  loads (fst (for_each step part)) = [].
Proof.
  split; [apply not_stderr_spec | apply not_load_spec];
    apply only_for_each; intros nt; apply step_only_quiet.
Qed.

End ScriptFacts.

Section StageFacts.
Variable get_name : string -> option string.
Variable a : args.
Variable d : model_dir.

Let step (nt : string * tensor) : M unit :=
  tensor_step get_name a (fst nt) (snd nt).

Lemma part_step_unfold p :
  vocab_only a = false ->
  part_step get_name a d p =
  (Print ("gguf: loading model part '" +++ p +++ "'") ::
   TorchLoad (part_path a p) ::
   fst (for_each step (torch_load d (part_path a p))),
   match snd (for_each step (torch_load d (part_path a p))) with
   | Ok _ => Ok false
   | Raise e msg => Raise e msg
   | SysExit s => SysExit s
   end).
Proof.
  intros Hv. unfold part_step. rewrite Hv. fold step.
  destruct (for_each step (torch_load d (part_path a p))) as [t [[]|e msg|s]];
    simpl; try reflexivity.
  now rewrite app_nil_r.
Qed.

Lemma part_step_loads p :
  vocab_only a = false ->
  loads (fst (part_step get_name a d p)) = [part_path a p].
Proof.
  intros Hv. rewrite part_step_unfold by assumption. simpl.
  f_equal. apply tensor_loop_quiet.
Qed.

Lemma part_step_ok p :
  vocab_only a = false -> part_unmappable get_name a d p = false ->
  snd (part_step get_name a d p) = Ok false /\
  shard_events (fst (part_step get_name a d p)) = part_events get_name a d p.
Proof.
  intros Hv Hp. rewrite part_step_unfold by assumption.
  destruct (tensor_loop_ok get_name a (torch_load d (part_path a p)))
    as (H1 & H2 & _).
  { intros nt Hin. unfold part_unmappable in Hp.
    destruct (unmappable get_name (fst nt)) eqn:E; [|reflexivity].
    rewrite <- Hp. symmetry. apply existsb_exists. now exists nt. }
  fold step in H1, H2. simpl. rewrite H1, H2. split; reflexivity.
Qed.

Lemma part_step_exit p :
  vocab_only a = false -> part_unmappable get_name a d p = true ->
  snd (part_step get_name a d p) = sys_exit None /\
  exists t name,
    fst (part_step get_name a d p) = t ++ [Print (cannot_map name)] /\
    unmappable get_name name = true /\
    In name (map fst (torch_load d (part_path a p))).
Proof.
  intros Hv Hp. rewrite part_step_unfold by assumption.
  destruct (first_true (fun nt : string * tensor => unmappable get_name (fst nt))
              (torch_load d (part_path a p)))
    as [Hall|(pre & [name data] & post & Hsplit & Hpre & Hname)].
  - unfold part_unmappable in Hp. apply existsb_exists in Hp as (nt & Hin & Hnt).
    rewrite Hall in Hnt by assumption. discriminate.
  - simpl in Hname. rewrite Hsplit.
    pose proof (@tensor_loop_exit get_name a pre name data post Hpre Hname) as E.
    fold step in E. rewrite E. simpl. split; [reflexivity|].
    exists (Print ("gguf: loading model part '" +++ p +++ "'") ::
            TorchLoad (part_path a p) :: fst (for_each step pre)), name.
    split; [reflexivity|]. split; [assumption|].
    rewrite map_app. apply in_or_app. right. now left.
Qed.

Lemma part_step_quiet p : only not_stderr (part_step get_name a d p).
Proof.
  unfold part_step. only_tac. apply step_only_quiet.
Qed.

Lemma stderr_part_steps l :
  stderr (flat_map (fun p => fst (part_step get_name a d p)) l) = [].
Proof.
  induction l as [|p l IH]; [reflexivity|].
  simpl. rewrite stderr_app, IH, app_nil_r.
  apply not_stderr_spec, part_step_quiet.
Qed.

Lemma loads_part_steps l :
  vocab_only a = false ->
  loads (flat_map (fun p => fst (part_step get_name a d p)) l) =
  map (part_path a) l.
Proof.
  intros Hv. induction l as [|p l IH]; [reflexivity|].
  simpl. now rewrite loads_app, part_step_loads, IH.
Qed.

Lemma shard_events_part_steps l :
  vocab_only a = false ->
  (forall p, In p l -> part_unmappable get_name a d p = false) ->
  shard_events (flat_map (fun p => fst (part_step get_name a d p)) l) =
  flat_map (part_events get_name a d) l.
Proof.
  intros Hv. induction l as [|p l IH]; intros Hall; [reflexivity|].
  simpl flat_map. rewrite shard_events_app.
  destruct (part_step_ok p Hv (Hall p (or_introl eq_refl))) as [_ ->].
  rewrite IH by (intros; apply Hall; now right). reflexivity.
Qed.

(** In vocab-only mode the first part breaks the loop before anything is
    read. *)
Lemma tensor_stage_vocab_only n :
  vocab_only a = true ->
  tensor_stage get_name a d n = ([Print "gguf: get tensor metadata"], Ok tt).
Proof.
  intros Hv. unfold tensor_stage.
  rewrite for_break_at_once; [reflexivity|].
  intros p. unfold part_step. now rewrite Hv.
Qed.

Lemma tensor_stage_ok n :
  vocab_only a = false ->
  (forall p, In p (part_names n) -> part_unmappable get_name a d p = false) ->
  snd (tensor_stage get_name a d n) = Ok tt /\
  shard_events (fst (tensor_stage get_name a d n)) =
    flat_map (part_events get_name a d) (part_names n) /\
  loads (fst (tensor_stage get_name a d n)) =
    map (part_path a) (part_names n).
Proof.
  intros Hv Hall. unfold tensor_stage.
  rewrite for_break_all_false by (intros p Hp; now apply part_step_ok, Hall).
  simpl. split; [reflexivity|]. split.
  - now apply shard_events_part_steps.
  - now apply loads_part_steps.
Qed.

Lemma tensor_stage_exit n pre p post :
  vocab_only a = false ->
  part_names n = pre ++ p :: post ->
  (forall q, In q pre -> part_unmappable get_name a d q = false) ->
  part_unmappable get_name a d p = true ->
  snd (tensor_stage get_name a d n) = sys_exit None /\
  loads (fst (tensor_stage get_name a d n)) = map (part_path a) (pre ++ [p]) /\
  stderr (fst (tensor_stage get_name a d n)) = [] /\
  exists t name,
    fst (tensor_stage get_name a d n) = t ++ [Print (cannot_map name)] /\
    unmappable get_name name = true.
Proof.
  intros Hv Hsplit Hpre Hp. unfold tensor_stage. rewrite Hsplit.
  destruct (part_step_exit p Hv Hp) as (Hexit & t & name & Ht & Hname & _).
  rewrite for_break_first_exit with (s := 0%Z);
    [|intros q Hq; now apply part_step_ok, Hpre | exact Hexit].
  simpl. split; [reflexivity|]. split; [|split].
  - rewrite loads_app, loads_part_steps, part_step_loads by assumption.
    now rewrite map_app.
  - rewrite stderr_app. rewrite (not_stderr_spec _ (part_step_quiet p)).
    rewrite app_nil_r. apply stderr_part_steps.
  - exists (Print "gguf: get tensor metadata" ::
            flat_map (fun y => fst (part_step get_name a d y)) pre ++ t), name.
    split; [|assumption]. rewrite Ht. simpl. now rewrite app_assoc.
Qed.

(** Whatever happens, the stage ends normally or through the bare exit. *)
Lemma tensor_stage_cases n :
  vocab_only a = false ->
  (forall p, In p (part_names n) -> part_unmappable get_name a d p = false) \/
  exists pre p post,
    part_names n = pre ++ p :: post /\
    (forall q, In q pre -> part_unmappable get_name a d q = false) /\
    part_unmappable get_name a d p = true.
Proof. intros _. apply first_true. Qed.

Lemma open_stage_quiet :
  only not_shard (open_stage a d) /\
  (is_dir d = true -> only not_stderr (open_stage a d)).
Proof.
  split.
  - unfold open_stage, count_model_parts, list_index, exit. only_tac.
  - intros Hd. unfold open_stage, count_model_parts, list_index, exit.
    rewrite Hd. simpl negb. cbv iota. only_tac.
Qed.

Lemma count_model_parts_returns l :
  returns (fun n => n = count_parts l) (count_model_parts l).
Proof.
  unfold count_model_parts. skip_bind. intros n H. now injection H as <-.
Qed.

Lemma open_stage_returns :
  returns (fun o => snd o = count_parts (listdir d)) (open_stage a d).
Proof.
  unfold open_stage. destruct (negb (is_dir d)).
  - skip_bind. intros r H. discriminate H.
  - do 3 skip_bind. destruct (negb _).
    + do 2 skip_bind. intros r H. discriminate H.
    + eapply returns_bind; [apply count_model_parts_returns|].
      intros n ->. do 3 skip_bind. intros r H. now injection H as <-.
Qed.

Lemma open_stage_count f n :
  snd (open_stage a d) = Ok (f, n) -> n = count_parts (listdir d).
Proof. intros H. exact (open_stage_returns H). Qed.

Lemma vocab_stage_quiet :
  only not_shard (vocab_stage a d) /\
  (tokenizer_file d <> None -> only not_stderr (vocab_stage a d)).
Proof.
  split.
  - unfold vocab_stage, exit. only_tac.
  - intros Ht. unfold vocab_stage, exit.
    destruct (tokenizer_file d); [|congruence]. only_tac.
Qed.

Lemma close_stage_ok f :
  snd (close_stage a f) = Ok tt /\
  only not_shard (close_stage a f) /\ only not_stderr (close_stage a f).
Proof.
  unfold close_stage. split; [destruct (vocab_only a); reflexivity|].
  split; only_tac.
Qed.

End StageFacts.

Lemma list_index_0 {A} (x : A) (l : list A) : list_index (x :: l) 0 = ret x.
Proof.
  unfold list_index. cbn [Z.ltb Z.compare].
  replace ((0 <=? 0)%Z && (0 <? Z.of_nat (List.length (x :: l)))%Z) with true.
  - reflexivity.
  - symmetry. apply andb_true_intro. split; [reflexivity|].
    apply Z.ltb_lt. simpl List.length. lia.
Qed.

Section MainFacts.
Variable get_name : string -> option string.
Variable a : args.
Variable d : model_dir.

Let n : nat := count_parts (listdir d).

Lemma main_unfold :
  main get_name a d =
  bind (open_stage a d) (fun opened =>
  bind (vocab_stage a d) (fun _ =>
  bind (tensor_stage get_name a d (snd opened)) (fun _ =>
  close_stage a (fst opened)))).
Proof. reflexivity. Qed.

(** The reads and writer tensors of a run are those of its tensor stage,
    and a run ends normally exactly when it gets there and that stage
    does. *)
Lemma main_cases :
  (shard_events (fst (main get_name a d)) = [] /\
   snd (main get_name a d) <> Ok tt) \/
  (shard_events (fst (main get_name a d)) =
     shard_events (fst (tensor_stage get_name a d n)) /\
   (snd (main get_name a d) = Ok tt ->
    snd (tensor_stage get_name a d n) = Ok tt)).
Proof.
  rewrite main_unfold.
  pose proof (not_shard_spec _ (proj1 (open_stage_quiet a d))) as Hopen.
  pose proof (not_shard_spec _ (proj1 (vocab_stage_quiet a d))) as Hvocab.
  pose proof (@open_stage_count a d) as Hcount.
  destruct (open_stage a d) as [t1 [[f m]| |]]; simpl in Hopen;
    [|left; simpl; split; [assumption | discriminate]..].
  rewrite (Hcount f m eq_refl). fold n. simpl fst. simpl snd.
  destruct (vocab_stage a d) as [t2 [[]| |]]; simpl in Hvocab;
    [|left; simpl; rewrite shard_events_app, Hopen, Hvocab;
      split; [reflexivity | discriminate]..].
  right.
  destruct (close_stage_ok a f) as (Hc1 & Hc2 & _).
  apply not_shard_spec in Hc2.
  destruct (tensor_stage get_name a d n) as [t3 [[]| |]];
    destruct (close_stage a f) as [t4 r4]; simpl in *;
    rewrite ?shard_events_app, ?Hopen, ?Hvocab, ?Hc2, ?app_nil_r;
    split; try reflexivity; try discriminate.
Qed.

Lemma open_stage_not_dir :
  is_dir d = false ->
  open_stage a d =
  ([PrintErr ("Error: " +++ model a +++ " is not a directory")], SysExit 1).
Proof. intros H. unfold open_stage. rewrite H. reflexivity. Qed.

Lemma fname_out_ok :
  fname_out_defined a ->
  exists f,
    match outfile a with
    | Some f => ret f
    | None => s <- list_index ftype_str (ftype a) ;;
              ret (model a +++ "/ggml-model-" +++ s +++ ".gguf")
    end = ret f.
Proof.
  intros H. unfold fname_out_defined in H. destruct (outfile a) as [f|].
  - now exists f.
  - destruct H as [H|[H|H]]; [congruence|..]; rewrite H; eexists; reflexivity.
Qed.

Lemma open_stage_wrong_architecture arch rest :
  is_dir d = true -> fname_out_defined a ->
  architectures d = arch :: rest ->
  arch <> "GPTNeoXForCausalLM"%string ->
  open_stage a d =
  ([Print ("gguf: loading model " +++ dir_name d);
    Print ("Model architecture not supported: " +++ arch)], sys_exit None).
Proof.
  intros Hd Hf Harch Hne. unfold open_stage.
  destruct (fname_out_ok Hf) as [f ->].
  rewrite Hd, Harch, list_index_0.
  apply String.eqb_neq in Hne.
  cbn [negb bind ret emit app]. rewrite Hne. reflexivity.
Qed.

Lemma open_stage_ok rest :
  is_dir d = true -> fname_out_defined a ->
  architectures d = "GPTNeoXForCausalLM"%string :: rest ->
  exists t f, open_stage a d = (t, Ok (f, n)) /\ stderr t = [].
Proof.
  intros Hd Hf Harch.
  pose proof (proj2 (open_stage_quiet a d) Hd) as Hq.
  apply not_stderr_spec in Hq.
  pose proof (@open_stage_count a d) as Hcount.
  assert (Hok : exists o, snd (open_stage a d) = Ok o).
  { unfold open_stage, count_model_parts.
    destruct (fname_out_ok Hf) as [f ->].
    rewrite Hd, Harch, list_index_0.
    cbn [negb bind ret emit app]. rewrite String.eqb_refl.
    cbn [negb bind ret emit app].
    destruct (0 <? count_parts (listdir d))%nat; eexists; reflexivity. }
  destruct Hok as [[f m] Hok].
  destruct (open_stage a d) as [t r]. simpl in *. subst r.
  exists t, f. rewrite (Hcount f m eq_refl). now split.
Qed.

Lemma vocab_stage_missing_tokenizer :
  tokenizer_file d = None ->
  vocab_stage a d =
  ([Print "gguf: get tokenizer metadata";
    PrintErr ("Error: Missing " +++ model a +++ "/tokenizer.json")],
   SysExit 1).
Proof. intros H. unfold vocab_stage. rewrite H. reflexivity. Qed.

Lemma vocab_stage_ok tj v :
  tokenizer_file d = Some tj ->
  BpeVocabM.init tj (added_tokens_file d) (Some tj) = Ok v ->
  exists t, vocab_stage a d = (t, Ok tt) /\ stderr t = [].
Proof.
  intros Ht Hv.
  assert (Hq : only not_stderr (vocab_stage a d))
    by (apply vocab_stage_quiet; congruence).
  apply not_stderr_spec in Hq.
  assert (Hok : snd (vocab_stage a d) = Ok tt).
  { unfold vocab_stage. rewrite Ht, Hv. reflexivity. }
  destruct (vocab_stage a d) as [t r]. simpl in *. subst r.
  now exists t.
Qed.

End MainFacts.

Lemma sent_names_all_mapped get_name a part :
  (forall nt, In nt part -> unmappable get_name (fst nt) = false) ->
  map (fun nt : string * tensor => get_name (fst nt))
      (filter (fun nt : string * tensor => negb (unwanted (fst nt))) part) =
  map (fun e : string * tensor => Some (fst e)) (sent_tensors get_name a part).
Proof.
  induction part as [|nt part IH]; intros Hall; [reflexivity|].
  rewrite sent_tensors_cons, map_app, <- IH by (intros; apply Hall; now right).
  unfold sent_tensors. simpl.
  destruct (unmappable_false _ _ (Hall nt (or_introl eq_refl)))
    as [Hu|(Hu & new_name & Hn)]; rewrite Hu; simpl; [reflexivity|].
  now rewrite Hn.
Qed.

Lemma emitted_shard_events t : emitted (shard_events t) = emitted t.
Proof.
  induction t as [|e t IH]; [reflexivity|].
  destruct e; simpl; try exact IH. now rewrite IH.
Qed.

Lemma emitted_add_tensor (l : list (string * tensor)) :
  emitted (map add_tensor l) = l.
Proof.
  induction l as [|[n x] l IH]; [reflexivity|].
  change (emitted (map add_tensor ((n, x) :: l)))
    with ((n, x) :: emitted (map add_tensor l)).
  now rewrite IH.
Qed.

Lemma emitted_part_events get_name a d parts :
  emitted (flat_map (part_events get_name a d) parts) =
  flat_map (fun p => sent_tensors get_name a (torch_load d (part_path a p))) parts.
Proof.
  induction parts as [|p parts IH]; [reflexivity|].
  cbn [flat_map]. rewrite emitted_app, IH. f_equal.
  apply (emitted_add_tensor
           (sent_tensors get_name a (torch_load d (part_path a p)))).
Qed.

Lemma part_mappable_all get_name a d p :
  part_unmappable get_name a d p = false ->
  forall nt, In nt (torch_load d (part_path a p)) ->
             unmappable get_name (fst nt) = false.
Proof.
  intros Hp nt Hin. unfold part_unmappable in Hp.
  destruct (unmappable get_name (fst nt)) eqn:E; [|reflexivity].
  rewrite <- Hp. symmetry. apply existsb_exists. now exists nt.
Qed.

(** The names of the wanted tensors of a list of parts, and what the
    parts send. *)
Lemma wanted_names_parts get_name a d parts :
  (forall p, In p parts -> part_unmappable get_name a d p = false) ->
  map (fun nt : string * tensor => get_name (fst nt))
      (filter (fun nt : string * tensor => negb (unwanted (fst nt)))
              (flat_map (fun p => torch_load d (part_path a p)) parts)) =
  map (fun e : string * tensor => Some (fst e))
      (flat_map (fun p => sent_tensors get_name a (torch_load d (part_path a p)))
                parts).
Proof.
  induction parts as [|p parts IH]; intros Hall; [reflexivity|].
  cbn [flat_map]. rewrite filter_app, !map_app.
  rewrite IH by (intros; apply Hall; now right).
  f_equal. apply sent_names_all_mapped.
  apply part_mappable_all, Hall. now left.
Qed.

(** One part's loop: all sent, or stopped at the first wanted name that
    does not map. *)
Lemma tensor_loop_cases get_name a (part : list (string * tensor)) :
  let run := for_each (fun nt : string * tensor =>
                         tensor_step get_name a (fst nt) (snd nt)) part in
  (snd run = Ok tt /\
   emitted (fst run) = sent_tensors get_name a part /\
   map (fun nt : string * tensor => get_name (fst nt))
       (filter (fun nt : string * tensor => negb (unwanted (fst nt))) part) =
   map (fun e : string * tensor => Some (fst e)) (emitted (fst run))) \/
  (snd run = sys_exit None /\
   exists pre name data post,
     part = pre ++ (name, data) :: post /\
     unwanted name = false /\ get_name name = None /\
     exists t, fst run = t ++ [Print (cannot_map name)]).
Proof.
  intros run.
  destruct (first_true (fun nt : string * tensor => unmappable get_name (fst nt))
              part) as [Hall|(pre & [name data] & post & -> & Hpre & Hname)].
  - left. destruct (tensor_loop_ok get_name a part Hall) as (H1 & _ & H3).
    split; [exact H1|]. split; [exact H3|]. unfold run. rewrite H3.
    now apply sent_names_all_mapped.
  - right. simpl in Hname. unfold run.
    rewrite (@tensor_loop_exit get_name a pre name data post Hpre Hname).
    split; [reflexivity|].
    destruct (unmappable_true _ _ Hname) as [Hu Hn].
    exists pre, name, data, post. repeat split; try assumption.
    eexists. reflexivity.
Qed.

(** What a run that ends normally has sent, when it is not vocab-only. *)
Lemma main_sends get_name a d :
  vocab_only a = false ->
  snd (main get_name a d) = Ok tt ->
  (forall p, In p (part_names (count_parts (listdir d))) ->
             part_unmappable get_name a d p = false) /\
  emitted (fst (main get_name a d)) =
    flat_map (fun p => sent_tensors get_name a (torch_load d (part_path a p)))
             (part_names (count_parts (listdir d))).
Proof.
  intros Hv Hok.
  destruct (main_cases get_name a d) as [[_ Hne]|[Hs Hstage]];
    [now exfalso|].
  specialize (Hstage Hok).
  destruct (tensor_stage_cases get_name a d (count_parts (listdir d)) Hv)
    as [Hall|(pre & p & post & Hsplit & Hpre & Hp)].
  - split; [exact Hall|].
    destruct (tensor_stage_ok get_name a d _ Hv Hall) as (_ & Hev & _).
    now rewrite <- emitted_shard_events, Hs, Hev, emitted_part_events.
  - destruct (tensor_stage_exit get_name a d _ pre p post Hv Hsplit Hpre Hp)
      as (Hexit & _).
    rewrite Hstage in Hexit. discriminate Hexit.
Qed.

(** C4: a tensor whose name ends with one of the three listed suffixes is
    dropped without the mapper being asked (the step is the same for every
    mapper and leaves no event); for every other name either the mapper
    gives a canonical name and the tensor goes to the writer under it, or
    the run ends there through [sys.exit()] after printing the native
    name; over a whole part, either every wanted tensor is sent, in order,
    under the name the mapper gives, or the run ends at the first wanted
    name without a canonical name, which the last printed line reports.
    The same holds of the script's own loop: unless the run is vocab-only,
    [part_step] on a part file either sends every wanted tensor that
    [torch.load] gives for it and goes on to the next part, or ends the
    run at the first wanted name that does not map; and a whole run that
    ends normally has sent every wanted tensor of every part file, in
    part and key order, each under its canonical name. *)
Theorem C4_no_tensor_silently_skipped :
  forall (get_name : string -> option string) (a : args),
    (forall name,
       unwanted name = true <->
       (endswith name ".attention.masked_bias" = true \/
        endswith name ".attention.bias" = true \/
        endswith name ".attention.rotary_emb.inv_freq" = true)) /\
    (forall name data (get_name' : string -> option string),
       unwanted name = true -> tensor_step get_name' a name data = ret tt) /\
    (forall name data,
       unwanted name = false ->
       (exists new_name,
          get_name name = Some new_name /\
          snd (tensor_step get_name a name data) = Ok tt /\
          emitted (fst (tensor_step get_name a name data)) =
            [(new_name, Policy.convert (ftype a) name data)]) \/
       (get_name name = None /\
        tensor_step get_name a name data =
          ([Print ("Can not map tensor '" +++ name +++ "'")], sys_exit None))) /\
    (forall part : list (string * tensor),
       let run := for_each (fun nt : string * tensor =>
                              tensor_step get_name a (fst nt) (snd nt)) part in
       (snd run = Ok tt /\
        map (fun nt : string * tensor => get_name (fst nt))
            (filter (fun nt : string * tensor => negb (unwanted (fst nt))) part) =
        map (fun e : string * tensor => Some (fst e)) (emitted (fst run))) \/
       (snd run = sys_exit None /\
        exists pre name data post,
          part = pre ++ (name, data) :: post /\
          unwanted name = false /\ get_name name = None /\
          last (stdout (fst run)) ""%string =
            "Can not map tensor '" +++ name +++ "'")) /\
    (forall (d : model_dir) (part_name : string),
       vocab_only a = false ->
       let part := torch_load d (part_path a part_name) in
       let run := part_step get_name a d part_name in
       (snd run = Ok false /\
        loads (fst run) = [part_path a part_name] /\
        emitted (fst run) = sent_tensors get_name a part /\
        map (fun nt : string * tensor => get_name (fst nt))
            (filter (fun nt : string * tensor => negb (unwanted (fst nt))) part) =
        map (fun e : string * tensor => Some (fst e)) (emitted (fst run))) \/
       (snd run = sys_exit None /\
        exists pre name data post,
          part = pre ++ (name, data) :: post /\
          unwanted name = false /\ get_name name = None /\
          last (stdout (fst run)) ""%string =
            "Can not map tensor '" +++ name +++ "'")) /\
    (forall d : model_dir,
       vocab_only a = false ->
       let run := main get_name a d in
       let parts := part_names (count_parts (listdir d)) in
       snd run = Ok tt ->
       loads (fst run) = map (part_path a) parts /\
       map (fun nt : string * tensor => get_name (fst nt))
           (filter (fun nt : string * tensor => negb (unwanted (fst nt)))
                   (flat_map (fun p => torch_load d (part_path a p)) parts)) =
       map (fun e : string * tensor => Some (fst e)) (emitted (fst run))).
Proof.
  intros get_name a. split; [|split; [|split; [|split; [|split]]]].
  - intros name. unfold unwanted. rewrite !orb_true_iff. tauto.
  - intros name data get_name' H. now apply tensor_step_unwanted.
  - intros name data Hu. destruct (get_name name) as [new_name|] eqn:E.
    + left. exists new_name.
      destruct (tensor_step_mapped get_name a name data Hu E) as (H1 & _ & H3). auto.
    + right. split; [reflexivity|]. now apply tensor_step_unmapped.
  - intros part run.
    destruct (tensor_loop_cases get_name a part)
      as [(Hok & _ & Hnames)|(Hexit & pre & name & data & post & Hsplit & Hu & Hn
                              & t & Ht)].
    + left. split; assumption.
    + right. split; [exact Hexit|].
      exists pre, name, data, post. repeat split; try assumption.
      unfold run. rewrite Ht, stdout_app. simpl. apply last_last.
  - intros d p Hv part run. unfold run.
    rewrite (part_step_unfold get_name a d p Hv). fold part.
    cbn [fst snd].
    destruct (tensor_loop_cases get_name a part)
      as [(Hok & Hsent & Hnames)|(Hexit & pre & name & data & post & Hsplit & Hu
                                  & Hn & t & Ht)].
    + left. rewrite Hok. split; [reflexivity|]. split; [|split].
      * change (part_path a p :: loads (fst (for_each
                  (fun nt : string * tensor =>
                     tensor_step get_name a (fst nt) (snd nt)) part)) =
                [part_path a p]).
        f_equal. apply tensor_loop_quiet.
      * exact Hsent.
      * exact Hnames.
    + right. rewrite Hexit. split; [reflexivity|].
      exists pre, name, data, post. repeat split; try assumption.
      rewrite Ht.
      change (last (("gguf: loading model part '" +++ p +++ "'") ::
                    stdout (t ++ [Print (cannot_map name)])) ""%string =
              cannot_map name).
      rewrite stdout_app, app_comm_cons. simpl stdout at 2.
      apply last_last.
  - intros d Hv run parts Hok.
    destruct (main_sends get_name a d Hv Hok) as [Hall Hsent].
    split.
    + destruct (main_cases get_name a d) as [[_ Hne]|[Hs _]]; [now exfalso|].
      destruct (tensor_stage_ok get_name a d _ Hv Hall) as (_ & _ & Hl).
      unfold run. rewrite <- loads_shard_events, Hs, loads_shard_events.
      exact Hl.
    + unfold run. rewrite Hsent. now apply wanted_names_parts.
Qed.

Lemma C4_witness :
  tensor_step sample_map sample_args "a.attention.bias"
    {| t_dtype := bool_; t_shape := [1; 1; 8; 8]%nat |} = ret tt /\
  tensor_step sample_map sample_args "c.scale"
    {| t_dtype := float32; t_shape := [4]%nat |} =
  ([Print "Can not map tensor 'c.scale'"], SysExit 0) /\
  map (fun e : string * tensor => Some (fst e))
      (emitted (fst (main sample_map sample_args sample_dir))) =
  [Some "blk.a.weight"; Some "blk.b.weight"]%string /\
  snd (part_step sample_map sample_args sample_dir_unmapped
         "pytorch_model-00002-of-00002.bin") = SysExit 0.
Proof.
  destruct (C4_no_tensor_silently_skipped sample_map sample_args)
    as (_ & Hdrop & Hstep & _ & Hpart & Hmain).
  split; [|split; [|split]].
  - apply Hdrop. reflexivity.
  - destruct (Hstep "c.scale"%string {| t_dtype := float32; t_shape := [4]%nat |}
                eq_refl) as [(new_name & Hmap & _)|[_ Hexit]].
    + discriminate Hmap.
    + exact Hexit.
  - assert (Hok : snd (main sample_map sample_args sample_dir) = Ok tt)
      by (vm_compute; reflexivity).
    destruct (Hmain sample_dir eq_refl Hok) as [_ Hnames].
    rewrite <- Hnames. vm_compute. reflexivity.
  - destruct (Hpart sample_dir_unmapped "pytorch_model-00002-of-00002.bin"%string
                eq_refl) as [(Hok & _)|(Hexit & _)].
    + vm_compute in Hok. discriminate Hok.
    + exact Hexit.
Defined.

Lemma upto_first_all {A} (p : A -> bool) l :
  (forall x, In x l -> p x = false) -> upto_first p l = l.
Proof.
  induction l as [|x l IH]; intros H; [reflexivity|].
  simpl. rewrite (H x) by now left.
  now rewrite IH by (intros; apply H; now right).
Qed.

Lemma upto_first_split {A} (p : A -> bool) pre x post :
  (forall y, In y pre -> p y = false) -> p x = true ->
  upto_first p (pre ++ x :: post) = pre ++ [x].
Proof.
  induction pre as [|y pre IH]; intros H Hx; simpl.
  - now rewrite Hx.
  - rewrite (H y) by now left.
    now rewrite IH by (try (intros; apply H; right); assumption).
Qed.

(** The files the tensor stage reads. *)
Lemma tensor_stage_loads get_name a d n :
  vocab_only a = false ->
  loads (fst (tensor_stage get_name a d n)) =
  map (part_path a) (upto_first (part_unmappable get_name a d) (part_names n)).
Proof.
  intros Hv.
  destruct (tensor_stage_cases get_name a d n Hv)
    as [Hall|(pre & p & post & Hsplit & Hpre & Hp)].
  - rewrite upto_first_all by assumption. now apply tensor_stage_ok.
  - destruct (tensor_stage_exit get_name a d n pre p post Hv Hsplit Hpre Hp)
      as (_ & -> & _).
    now rewrite Hsplit, upto_first_split.
Qed.

(** C7: with no counted part the one file pytorch_model.bin is named, and
    with n parts the n files pytorch_model-{i:05}-of-{n:05}.bin for i from
    1 to n, in this order.  In vocab-only mode nothing is read.  A run
    reads nothing when it ends before the tensor stage, and otherwise the
    named files in order, up to the last one or to the one in which a
    wanted tensor name does not map (where the run ends); so the files
    read are always an initial segment of the named ones, and in a run that
    ends normally they are all of them, each read followed by the writer
    calls for the tensors of that part before the next read. *)
Theorem C7_shard_enumeration :
  forall (get_name : string -> option string) (a : args) (d : model_dir),
    let run := main get_name a d in
    let n := count_parts (listdir d) in
    part_names 0 = ["pytorch_model.bin"%string] /\
    (forall m, (0 < m)%nat ->
       part_names m =
       map (fun i => "pytorch_model-" +++ fmt05 i +++ "-of-" +++ fmt05 m +++ ".bin")
           (seq 1 m)) /\
    part_names 3 = ["pytorch_model-00001-of-00003.bin";
                    "pytorch_model-00002-of-00003.bin";
                    "pytorch_model-00003-of-00003.bin"]%string /\
    (vocab_only a = true -> loads (fst run) = []) /\
    (loads (fst run) = [] \/
     loads (fst run) =
       map (part_path a)
           (upto_first (part_unmappable get_name a d) (part_names n))) /\
    (exists rest, loads (fst run) ++ rest = map (part_path a) (part_names n)) /\
    (vocab_only a = false -> snd run = Ok tt ->
     loads (fst run) = map (part_path a) (part_names n) /\
     shard_events (fst run) =
       flat_map (part_events get_name a d) (part_names n)).
Proof.
  intros get_name a d run n.
  split; [reflexivity|]. split.
  { intros m Hm. unfold part_names.
    destruct (Nat.eqb_spec m 0); [lia | reflexivity]. }
  split; [reflexivity|].
  pose proof (main_cases get_name a d) as Hcases. fold run n in Hcases.
  assert (Hloads : forall t, shard_events (fst run) = shard_events t ->
                             loads (fst run) = loads t).
  { intros t Ht. now rewrite <- loads_shard_events, Ht, loads_shard_events. }
  split; [|split; [|split]].
  - intros Hv. destruct Hcases as [[He _]|[He _]].
    + now rewrite (Hloads [] He).
    + rewrite (Hloads _ He), tensor_stage_vocab_only by assumption. reflexivity.
  - destruct Hcases as [[He _]|[He _]].
    + left. now rewrite (Hloads [] He).
    + rewrite (Hloads _ He). destruct (vocab_only a) eqn:Hv.
      * left. now rewrite tensor_stage_vocab_only.
      * right. now apply tensor_stage_loads.
  - destruct Hcases as [[He _]|[He _]].
    + exists (map (part_path a) (part_names n)). now rewrite (Hloads [] He).
    + rewrite (Hloads _ He). destruct (vocab_only a) eqn:Hv.
      * exists (map (part_path a) (part_names n)).
        now rewrite tensor_stage_vocab_only.
      * destruct (tensor_stage_cases get_name a d n Hv)
          as [Hall|(pre & p & post & Hsplit & Hpre & Hp)].
        -- exists []. rewrite app_nil_r. now apply tensor_stage_ok.
        -- destruct (tensor_stage_exit get_name a d n pre p post Hv Hsplit Hpre Hp)
             as (_ & -> & _).
           exists (map (part_path a) post).
           rewrite Hsplit, <- map_app, <- app_assoc. reflexivity.
  - intros Hv Hok. destruct Hcases as [[_ Hne]|[He Hstage]]; [contradiction|].
    specialize (Hstage Hok).
    destruct (tensor_stage_cases get_name a d n Hv)
      as [Hall|(pre & p & post & Hsplit & Hpre & Hp)].
    + destruct (tensor_stage_ok get_name a d n Hv Hall) as (_ & Hs & Hl).
      rewrite (Hloads _ He), Hl, He, Hs. split; reflexivity.
    + destruct (tensor_stage_exit get_name a d n pre p post Hv Hsplit Hpre Hp)
        as (Hexit & _).
      rewrite Hexit in Hstage. discriminate Hstage.
Qed.

Lemma C7_witness :
  loads (fst (main sample_map sample_args sample_dir)) =
  ["/m/pytorch_model-00001-of-00002.bin";
   "/m/pytorch_model-00002-of-00002.bin"]%string.
Proof.
  apply (C7_shard_enumeration sample_map sample_args sample_dir);
    vm_compute; reflexivity.
Defined.

(** C10: [sys.exit()] without an argument is exit status 0.  A declared
    architecture other than GPTNeoXForCausalLM ends the run that way after
    printing the architecture on stdout, with nothing on stderr; so does a
    wanted tensor name without a canonical name, whose message is the last
    line on stdout.  A model path that is not a directory and a missing
    tokenizer.json print on stderr and exit with status 1. *)
Theorem C10_exit_status_of_aborts :
  forall (get_name : string -> option string) (a : args) (d : model_dir),
    let run := main get_name a d in
    exit_status (sys_exit (A := unit) None) = 0%Z /\
    (forall arch rest,
       is_dir d = true -> fname_out_defined a ->
       architectures d = arch :: rest ->
       arch <> "GPTNeoXForCausalLM"%string ->
       snd run = sys_exit None /\ exit_status (snd run) = 0%Z /\
       stderr (fst run) = [] /\
       stdout (fst run) =
         ["gguf: loading model " +++ dir_name d;
          "Model architecture not supported: " +++ arch]) /\
    (forall rest tj v p nt,
       is_dir d = true -> fname_out_defined a ->
       architectures d = "GPTNeoXForCausalLM"%string :: rest ->
       tokenizer_file d = Some tj ->
       BpeVocabM.init tj (added_tokens_file d) (Some tj) = Ok v ->
       vocab_only a = false ->
       In p (part_names (count_parts (listdir d))) ->
       In nt (torch_load d (part_path a p)) ->
       unmappable get_name (fst nt) = true ->
       snd run = sys_exit None /\ exit_status (snd run) = 0%Z /\
       stderr (fst run) = [] /\
       exists name,
         unmappable get_name name = true /\
         last (stdout (fst run)) ""%string =
           "Can not map tensor '" +++ name +++ "'") /\
    (is_dir d = false ->
     snd run = SysExit 1 /\ exit_status (snd run) = 1%Z /\
     stdout (fst run) = [] /\
     stderr (fst run) = ["Error: " +++ model a +++ " is not a directory"]) /\
    (forall rest,
       is_dir d = true -> fname_out_defined a ->
       architectures d = "GPTNeoXForCausalLM"%string :: rest ->
       tokenizer_file d = None ->
       snd run = SysExit 1 /\ exit_status (snd run) = 1%Z /\
       stderr (fst run) =
         ["Error: Missing " +++ model a +++ "/tokenizer.json"]).
Proof.
  intros get_name a d run.
  split; [reflexivity|]. split; [|split; [|split]].
  - intros arch rest Hd Hf Harch Hne. unfold run. rewrite main_unfold.
    rewrite (open_stage_wrong_architecture d Hd Hf Harch Hne).
    repeat split.
  - intros rest tj v p nt Hd Hf Harch Htok Hinit Hv Hp Hnt Hbad.
    destruct (open_stage_ok d Hd Hf Harch) as (t1 & f & Hopen & He1).
    destruct (vocab_stage_ok a d Htok Hinit) as (t2 & Hvocab & He2).
    destruct (tensor_stage_cases get_name a d (count_parts (listdir d)) Hv)
      as [Hall|(pre & q & post & Hsplit & Hpre & Hq)].
    { exfalso. specialize (Hall p Hp). unfold part_unmappable in Hall.
      enough (existsb (fun nt0 : string * tensor => unmappable get_name (fst nt0))
                (torch_load d (part_path a p)) = true) by congruence.
      apply existsb_exists. now exists nt. }
    destruct (tensor_stage_exit get_name a d _ pre q post Hv Hsplit Hpre Hq)
      as (Hexit & _ & He3 & t3 & name & Ht3 & Hname).
    assert (Hsnd : snd run = sys_exit None).
    { unfold run. rewrite main_unfold, bind_snd, Hopen. cbn [snd fst].
      rewrite bind_snd, Hvocab. cbn [snd fst]. rewrite bind_snd, Hexit.
      reflexivity. }
    assert (Hfst : fst run =
                   t1 ++ t2 ++ fst (tensor_stage get_name a d
                                      (count_parts (listdir d)))).
    { unfold run. rewrite main_unfold, bind_fst, Hopen. cbn [snd fst].
      rewrite bind_fst, Hvocab. cbn [snd fst].
      rewrite bind_fst, Hexit. cbn [snd fst sys_exit]. now rewrite app_nil_r. }
    split; [exact Hsnd|]. split; [now rewrite Hsnd|]. split.
    + now rewrite Hfst, !stderr_app, He1, He2, He3.
    + exists name. split; [exact Hname|].
      rewrite Hfst, Ht3, !stdout_app. simpl stdout at 4.
      rewrite !app_assoc. apply last_last.
  - intros Hd. unfold run. rewrite main_unfold, (open_stage_not_dir a d Hd).
    repeat split.
  - intros rest Hd Hf Harch Htok.
    destruct (open_stage_ok d Hd Hf Harch) as (t1 & f & Hopen & He1).
    unfold run. rewrite main_unfold, Hopen.
    rewrite (vocab_stage_missing_tokenizer a d Htok).
    simpl. rewrite stderr_app, He1. repeat split.
Qed.

Lemma C10_witness :
  snd (main sample_map sample_args sample_dir_unmapped) = SysExit 0 /\
  stderr (fst (main sample_map sample_args sample_dir_unmapped)) = [] /\
  last (stdout (fst (main sample_map sample_args sample_dir_unmapped))) ""%string =
    "Can not map tensor 'c.scale'"%string.
Proof.
  destruct (C10_exit_status_of_aborts sample_map sample_args sample_dir_unmapped)
    as (_ & _ & Hunmapped & _).
  destruct (BpeVocabM.init tj100 (Some pad_sep) (Some tj100)) as [v| |] eqn:E;
    try (vm_compute in E; discriminate).
  destruct (Hunmapped [] tj100 v "pytorch_model-00002-of-00002.bin"%string
              ("c.scale"%string, {| t_dtype := float32; t_shape := [4]%nat |}))
    as (Hsnd & _ & Herr & _).
  - reflexivity.
  - right. right. reflexivity.
  - reflexivity.
  - reflexivity.
  - exact E.
  - reflexivity.
  - vm_compute. tauto.
  - vm_compute. tauto.
  - reflexivity.
  - split; [exact Hsnd|]. split; [exact Herr|]. vm_compute. reflexivity.
Defined.

(** * Further properties *)

(** ** bytes_to_unicode *)

Example bytes_to_unicode_samples :
  idict_get 65 bytes_to_unicode = Some "A"%string /\
  idict_get 0 bytes_to_unicode = Some (chr 256) /\
  idict_get 32 bytes_to_unicode = Some (chr 288) /\
  idict_get 255 bytes_to_unicode = Some (chr 255) /\
  List.length bytes_to_unicode = 256%nat.
Proof. vm_compute. repeat split. Qed.

Lemma In_range (a b x : Z) : (a <= x < b)%Z -> In x (range a b).
Proof.
  intros H. unfold range. apply in_map_iff.
  exists (Z.to_nat (x - a)). split; [lia|].
  apply in_seq. lia.
Qed.

Lemma range_In (a b x : Z) : In x (range a b) -> (a <= x < b)%Z.
Proof.
  unfold range. intros H. apply in_map_iff in H as (i & <- & Hi).
  apply in_seq in Hi. lia.
Qed.

Lemma idict_get_absent {V} (k : Z) (d : idict V) :
  (forall kv, In kv d -> fst kv <> k) -> idict_get k d = None.
Proof.
  induction d as [|[k' v] d IH]; intros H; [reflexivity|].
  simpl. destruct (Z.eqb_spec k' k) as [->|_].
  - exfalso. now apply (H (k, v)); [left|].
  - apply IH. intros kv Hin. apply H. now right.
Qed.

(** X1: the table of [bytes_to_unicode] has exactly the 256 bytes as keys
    and can be reversed: [byte_decoder], built from it in [bpe_tokens],
    has 256 entries too and takes the character of every byte back to the
    byte. *)
Theorem X1_bytes_to_unicode_reversible :
  List.length bytes_to_unicode = 256%nat /\
  List.length byte_decoder = 256%nat /\
  (forall b, (0 <= b < 256)%Z ->
     exists c, idict_get b byte_encoder = Some c /\
               dict_get c byte_decoder = Some b) /\
  (forall b, ~ (0 <= b < 256)%Z -> idict_get b byte_encoder = None).
Proof.
  split; [vm_compute; reflexivity|]. split; [vm_compute; reflexivity|]. split.
  - intros b Hb.
    assert (Hall : forallb
              (fun b => match idict_get b byte_encoder with
                        | Some c => match dict_get c byte_decoder with
                                    | Some b' => (b' =? b)%Z
                                    | None => false
                                    end
                        | None => false
                        end) (range 0 256) = true)
      by (vm_compute; reflexivity).
    rewrite forallb_forall in Hall. specialize (Hall b (In_range Hb)).
    destruct (idict_get b byte_encoder) as [c|]; [|discriminate].
    exists c. split; [reflexivity|].
    destruct (dict_get c byte_decoder) as [b'|]; [|discriminate].
    apply Z.eqb_eq in Hall. now subst.
  - intros b Hb. apply idict_get_absent. intros kv Hin Heq.
    assert (Hall : forallb (fun kv : Z * string =>
                              (0 <=? fst kv)%Z && (fst kv <? 256)%Z)
                           byte_encoder = true)
      by (vm_compute; reflexivity).
    rewrite forallb_forall in Hall. specialize (Hall kv Hin).
    apply andb_prop in Hall as [H0 H1]. lia.
Qed.

Lemma X1_witness :
  exists c, idict_get 10 byte_encoder = Some c /\
            dict_get c byte_decoder = Some 10%Z.
Proof.
  apply (proj1 (proj2 (proj2 X1_bytes_to_unicode_reversible))). lia.
Defined.

(** X2: every byte of [bs_initial] ("!" to "~" and the two upper ranges)
    is given its own character, every other byte the character 256 + k
    where k counts the smaller bytes outside [bs_initial], and no byte is
    given a code point up to the space, from 127 to 160, or 173. *)
Theorem X2_bytes_to_unicode_code_points :
  forall b, (0 <= b < 256)%Z ->
    idict_get b bytes_to_unicode = Some (chr (code_point_of b)) /\
    In (b, code_point_of b) bytes_to_unicode_codes /\
    (33 <= code_point_of b < 324)%Z /\
    ~ (127 <= code_point_of b <= 160)%Z /\
    code_point_of b <> 173%Z /\
    ((33 <= b <= 126)%Z \/ (161 <= b <= 172)%Z \/ (174 <= b <= 255)%Z ->
     code_point_of b = b).
Proof.
  intros b Hb.
  assert (Hall : forallb
            (fun b =>
               let c := code_point_of b in
               match idict_get b bytes_to_unicode with
               | Some s => String.eqb s (chr c)
               | None => false
               end &&
               existsb (fun bc : Z * Z => (fst bc =? b)%Z && (snd bc =? c)%Z)
                       bytes_to_unicode_codes &&
               (33 <=? c)%Z && (c <? 324)%Z &&
               negb ((127 <=? c)%Z && (c <=? 160)%Z) &&
               negb (c =? 173)%Z &&
               (if ((33 <=? b)%Z && (b <=? 126)%Z) ||
                   ((161 <=? b)%Z && (b <=? 172)%Z) ||
                   ((174 <=? b)%Z && (b <=? 255)%Z)
                then (c =? b)%Z else true))
            (range 0 256) = true)
    by (vm_compute; reflexivity).
  rewrite forallb_forall in Hall. specialize (Hall b (In_range Hb)).
  cbv zeta in Hall.
  set (c := code_point_of b) in *. clearbody c.
  apply andb_prop in Hall as [Hall Hself].
  apply andb_prop in Hall as [Hall H173].
  apply andb_prop in Hall as [Hall Hctl].
  apply andb_prop in Hall as [Hall Hhi].
  apply andb_prop in Hall as [Hall Hlo].
  apply andb_prop in Hall as [Henc Hin].
  apply Z.leb_le in Hlo. apply Z.ltb_lt in Hhi.
  apply negb_true_iff, Z.eqb_neq in H173.
  apply negb_true_iff, andb_false_iff in Hctl.
  rewrite Z.leb_gt, Z.leb_gt in Hctl.
  split.
  { destruct (idict_get b bytes_to_unicode) as [s|]; [|discriminate Henc].
    apply String.eqb_eq in Henc. subst s. reflexivity. }
  split.
  { apply existsb_exists in Hin as ([b' c'] & Hin & Heq).
    cbn [fst snd] in Heq. apply andb_prop in Heq as [E1 E2].
    apply Z.eqb_eq in E1, E2. subst b' c'. exact Hin. }
  clear Henc Hin.
  split; [split; assumption|].
  split; [intros [H1 H2]; destruct Hctl as [Hc|Hc]; revert Hc H1 H2; clear; lia|].
  split; [assumption|].
  intros Hr.
  assert (Hcond : ((33 <=? b)%Z && (b <=? 126)%Z) ||
                  ((161 <=? b)%Z && (b <=? 172)%Z) ||
                  ((174 <=? b)%Z && (b <=? 255)%Z) = true).
  { rewrite !orb_true_iff, !andb_true_iff, !Z.leb_le. tauto. }
  rewrite Hcond in Hself. apply Z.eqb_eq. exact Hself.
Qed.

Lemma X2_witness :
  idict_get 32 bytes_to_unicode = Some (chr 288) /\
  idict_get 65 bytes_to_unicode = Some "A"%string.
Proof.
  split.
  - exact (proj1 (@X2_bytes_to_unicode_code_points 32%Z ltac:(lia))).
  - exact (proj1 (@X2_bytes_to_unicode_code_points 65%Z ltac:(lia))).
Defined.

(** ** More on the vocabulary *)

Lemma range_empty (a : Z) : range a (a + 0) = [].
Proof. unfold range. now replace (a + 0 - a)%Z with 0%Z by lia. Qed.

Lemma range_NoDup (a b : Z) : NoDup (range a b).
Proof.
  unfold range. apply Finite.Injective_map_NoDup; [|apply seq_NoDup].
  intros i j H. lia.
Qed.

Lemma dict_get_Some_keys {V} k (v : V) (d : dict V) :
  dict_get k d = Some v -> In k (dict_keys d).
Proof.
  induction d as [|[k0 v0] d IH]; simpl; [discriminate|].
  destruct (String.eqb_spec k0 k) as [->|_]; [now left|].
  intros H. right. now apply IH.
Qed.

Lemma dict_keys_get {V} k (d : dict V) :
  In k (dict_keys d) -> exists v, dict_get k d = Some v.
Proof.
  intros Hin. destruct (dict_get k d) as [v|] eqn:E; [now exists v|].
  exfalso. now apply (dict_get_None_keys _ _ E).
Qed.

(** The keys of a dict built from items are keys of items. *)
Lemma dict_of_items_keys {V} k (items : list (string * V)) :
  In k (dict_keys (dict_of_items items)) -> In k (map fst items).
Proof.
  intros Hin. apply dict_keys_get in Hin as [v Hv].
  rewrite dict_of_items_get in Hv. apply dict_get_Some_keys in Hv.
  unfold dict_keys in Hv. rewrite map_rev in Hv. now apply in_rev.
Qed.

Lemma dict_contains_keys {V} k (d : dict V) :
  dict_contains k d = true <-> In k (dict_keys d).
Proof.
  unfold dict_contains. split.
  - destruct (dict_get k d) as [v|] eqn:E; [|discriminate].
    intros _. now apply dict_get_Some_keys in E.
  - intros Hin. now apply dict_keys_get in Hin as [v ->].
Qed.

Lemma fold_dict_set_fresh {V} (items acc : list (string * V)) :
  NoDup (map fst (acc ++ items)) ->
  fold_left (fun d kv => dict_set (fst kv) (snd kv) d) items acc = acc ++ items.
Proof.
  revert acc. induction items as [|[k v] items IH]; intros acc Hnd; simpl.
  - now rewrite app_nil_r.
  - assert (Hset : dict_set k v acc = acc ++ [(k, v)]).
    { rewrite map_app in Hnd. apply NoDup_remove_2 in Hnd.
      assert (Hk : ~ In k (map fst acc))
        by (intros Hin; apply Hnd, in_or_app; now left).
      clear Hnd IH. induction acc as [|[k0 v0] acc IHa]; [reflexivity|].
      simpl. destruct (String.eqb_spec k0 k) as [->|_].
      - exfalso. apply Hk. now left.
      - f_equal. apply IHa. intros Hin. apply Hk. now right. }
    rewrite Hset, IH; rewrite <- app_assoc; [reflexivity | exact Hnd].
Qed.

(** A JSON object without a repeated key is the dict of its members in
    file order. *)
Lemma dict_of_items_id {V} (items : list (string * V)) :
  NoDup (map fst items) -> dict_of_items items = items.
Proof. intros H. now apply (fold_dict_set_fresh items []). Qed.

Section SortStability.
Variable A : Type.
Variable key : A -> Z.

Lemma insert_by_comm (x y : A) (l : list A) :
  (key x = key y -> x = y) ->
  insert_by key x (insert_by key y l) = insert_by key y (insert_by key x l).
Proof.
  intros Hxy. induction l as [|z l IH]; simpl.
  - destruct (Z.leb_spec (key x) (key y)), (Z.leb_spec (key y) (key x));
      try reflexivity; try lia.
    assert (x = y) as -> by (apply Hxy; lia). reflexivity.
  - destruct (Z.leb_spec (key y) (key z)), (Z.leb_spec (key x) (key z)); simpl;
      destruct (Z.leb_spec (key x) (key y)), (Z.leb_spec (key y) (key x));
      simpl;
      repeat match goal with
             | |- context [(?a <=? ?b)%Z] => destruct (Z.leb_spec a b)
             end; try reflexivity; try lia;
      try (assert (x = y) as -> by (apply Hxy; lia); reflexivity);
      try (now rewrite IH).
Qed.

(** Sorting by a key that tells the elements apart does not depend on
    the order the elements come in. *)
Lemma sorted_by_perm_eq (l l' : list A) :
  (forall x y, In x l -> In y l -> key x = key y -> x = y) ->
  Permutation l l' -> sorted_by key l = sorted_by key l'.
Proof.
  intros Hinj Hperm. induction Hperm as [|x l l' Hperm IH|x y l|l l' l'' H1 IH1 H2 IH2].
  - reflexivity.
  - simpl. rewrite IH; [reflexivity|].
    intros a b Ha Hb. apply Hinj; now right.
  - simpl. apply insert_by_comm.
    apply Hinj; simpl; auto.
  - rewrite IH1 by assumption. apply IH2.
    intros a b Ha Hb. apply Hinj; eapply Permutation_in;
      try (symmetry; exact H1); assumption.
Qed.
End SortStability.

Lemma sorted_perm_eq (l l' : list Z) :
  Permutation l l' -> sorted l = sorted l'.
Proof. apply sorted_by_perm_eq. intros x y _ _ H. exact H. Qed.

Lemma NoDup_map_inj_on {A B} (f : A -> B) (l : list A) x y :
  NoDup (map f l) -> In x l -> In y l -> f x = f y -> x = y.
Proof.
  induction l as [|a l IH]; simpl; [tauto|].
  intros Hnd Hx Hy Hf. inversion Hnd as [|? ? Hnotin Hnd']; subst.
  destruct Hx as [->|Hx], Hy as [->|Hy]; try reflexivity.
  - exfalso. apply Hnotin. rewrite Hf. now apply in_map.
  - exfalso. apply Hnotin. rewrite <- Hf. now apply in_map.
  - now apply IH.
Qed.

(** The result of the check and of the sort does not depend on the order
    of the entries of the added-token dict. *)
Lemma check_and_build_perm bpe (added added' : dict Z) :
  Permutation added added' ->
  BpeVocabM.check_and_build bpe added = BpeVocabM.check_and_build bpe added'.
Proof.
  intros Hperm. unfold BpeVocabM.check_and_build.
  assert (Hvals : sorted (dict_values added) = sorted (dict_values added'))
    by (apply sorted_perm_eq; unfold dict_values; now apply Permutation_map).
  assert (Hlen : len added = len added')
    by (unfold len; now rewrite (Permutation_length Hperm)).
  rewrite <- Hvals, <- Hlen.
  destruct (list_eq_dec _ _ _) as [Heq|Hne]; [|reflexivity].
  assert (Hitems : sorted_by snd (dict_items added) =
                   sorted_by snd (dict_items added')).
  { apply sorted_by_perm_eq; [|exact Hperm].
    intros x y. apply NoDup_map_inj_on.
    apply Permutation_NoDup with (l := sorted (dict_values added)).
    - symmetry. apply sorted_by_perm.
    - rewrite <- Heq. apply range_NoDup. }
  now rewrite Hitems.
Qed.

Lemma startswith_0x (text : string) :
  startswith text "<0x" = true -> startswith text "<" = true.
Proof.
  unfold startswith. destruct text as [|c text]; [intros H; discriminate H|].
  cbn [String.prefix].
  destruct (ascii_dec "<" c); [|intros H; discriminate H].
  intros _. destruct text; reflexivity.
Qed.

(** Which positions and texts get which type. *)
Lemma classify_exact (i : nat) (text : string) :
  (BpeVocabM.classify i text = UNKNOWN <-> i = 0%nat /\ text = "<unk>"%string) /\
  (BpeVocabM.classify i text = CONTROL <->
   (i = 1%nat \/ i = 2%nat) /\
   startswith text "<" = true /\ endswith text ">" = true) /\
  (BpeVocabM.classify i text = BYTE <->
   (3 <= i <= 258)%nat /\
   startswith text "<0x" = true /\ endswith text ">" = true) /\
  BpeVocabM.classify i text <> USER_DEFINED.
Proof.
  pose proof (startswith_0x text) as H0x.
  assert (Hunk : text = "<unk>"%string ->
                 startswith text "<" = true /\ endswith text ">" = true)
    by (intros ->; split; reflexivity).
  unfold BpeVocabM.classify.
  destruct (Nat.leb_spec i 258) as [Hle|Hgt];
    destruct (startswith text "<") eqn:Es;
    destruct (endswith text ">") eqn:Ee; cbn [andb];
    destruct (Nat.eqb_spec i 0) as [Hi0|Hi0];
    destruct (String.eqb_spec text "<unk>") as [Hu|Hu]; cbn [andb orb];
    destruct (Nat.eqb_spec i 1) as [Hi1|Hi1];
    destruct (Nat.eqb_spec i 2) as [Hi2|Hi2]; cbn [andb orb];
    destruct (Nat.leb_spec 3 i) as [Hi3|Hi3];
    destruct (startswith text "<0x") eqn:E0; cbn [andb orb];
    repeat apply conj; try discriminate;
    try (intros H; discriminate H);
    try (intros _; repeat apply conj; auto; lia);
    try (intros (H1 & H2 & H3); try destruct H1; try discriminate; try lia;
         try (destruct (Hunk Hu); discriminate);
         try (specialize (H0x eq_refl); discriminate));
    try (intros [H1 H2]; try lia; try congruence;
         try (destruct (Hunk H2); discriminate)).
Qed.

(** The added texts a built vocabulary keeps are the keys of the
    added-token mapping, each once. *)
Lemma init_added_keys fname_tokenizer fname_added_tokens tokenizer_json_file v :
  BpeVocabM.init fname_tokenizer fname_added_tokens tokenizer_json_file = Ok v ->
  Permutation (added_tokens_list v)
    (dict_keys (BpeVocabM.load_added_tokens
                  (dict_of_items (tj_model_vocab fname_tokenizer))
                  fname_added_tokens tokenizer_json_file)) /\
  NoDup (added_tokens_list v).
Proof.
  intros Hv.
  destruct (VocabFacts.check_and_build_Ok _ _ Hv) as (_ & _ & Hlist & _).
  assert (Hperm : Permutation (added_tokens_list v)
                    (dict_keys (BpeVocabM.load_added_tokens
                                  (dict_of_items (tj_model_vocab fname_tokenizer))
                                  fname_added_tokens tokenizer_json_file))).
  { rewrite Hlist. unfold dict_keys. apply Permutation_map.
    symmetry. apply sorted_by_perm. }
  split; [exact Hperm|].
  eapply Permutation_NoDup;
    [symmetry; exact Hperm | apply VocabFacts.load_added_tokens_NoDup].
Qed.

(** X3: the constructor succeeds exactly when the sorted added ids are the
    range from the base size on; the added texts it keeps are then the keys
    of the added-token mapping, each once, and [repr] reports the base size
    and the number of added tokens. *)
Theorem X3_init_succeeds_iff_contiguous :
  forall fname_tokenizer fname_added_tokens tokenizer_json_file,
    let bpe := dict_of_items (tj_model_vocab fname_tokenizer) in
    let added := BpeVocabM.load_added_tokens bpe fname_added_tokens
                   tokenizer_json_file in
    (sorted (dict_values added) = range (len bpe) (len bpe + len added) <->
     exists v, BpeVocabM.init fname_tokenizer fname_added_tokens
                 tokenizer_json_file = Ok v) /\
    (forall v,
       BpeVocabM.init fname_tokenizer fname_added_tokens tokenizer_json_file =
         Ok v ->
       Permutation (added_tokens_list v) (dict_keys added) /\
       NoDup (added_tokens_list v) /\
       BpeVocab_repr v =
         "<BpeVocab with " +++ str_Z (len bpe) +++ " base tokens and " +++
         str_nat (List.length added) +++ " added tokens>").
Proof.
  intros ft fa tf bpe added. split.
  - split.
    + intros Heq. unfold BpeVocabM.init, BpeVocabM.check_and_build.
      fold bpe. fold added.
      destruct (list_eq_dec _ _ _) as [_|Hne]; [eexists; reflexivity|].
      exfalso. apply Hne. symmetry. exact Heq.
    + intros [v Hv]. now destruct (VocabFacts.check_and_build_Ok _ _ Hv).
  - intros v Hv.
    destruct (VocabFacts.check_and_build_Ok _ _ Hv)
      as (_ & _ & _ & Hbase & _).
    fold bpe in Hbase.
    destruct (init_added_keys _ _ _ Hv) as [Hperm Hnd].
    fold bpe added in Hperm.
    split; [exact Hperm|]. split; [exact Hnd|].
    unfold BpeVocab_repr. rewrite Hbase.
      rewrite (Permutation_length Hperm). unfold dict_keys.
      now rewrite length_map.
Qed.

Lemma X3_witness :
  exists v,
    BpeVocabM.init tj100 (Some pad_sep) None = Ok v /\
    NoDup (added_tokens_list v) /\
    BpeVocab_repr v =
      "<BpeVocab with 100 base tokens and 2 added tokens>"%string.
Proof.
  destruct (proj1 (proj1 (X3_init_succeeds_iff_contiguous tj100 (Some pad_sep) None))
              ltac:(vm_compute; reflexivity)) as [v Hv].
  exists v. split; [exact Hv|].
  destruct (proj2 (X3_init_succeeds_iff_contiguous tj100 (Some pad_sep) None) v Hv)
    as (_ & Hnd & Hrepr).
  split; [exact Hnd|]. rewrite Hrepr. vm_compute. reflexivity.
Defined.

Lemma filter_none {A} (f : A -> bool) (l : list A) :
  (forall x, In x l -> f x = false) -> filter f l = [].
Proof.
  induction l as [|x l IH]; intros H; [reflexivity|].
  simpl. rewrite (H x) by now left. apply IH. intros; apply H; now right.
Qed.

Lemma check_and_build_empty bpe :
  BpeVocabM.check_and_build bpe [] =
  Ok {| bpe_tokenizer := bpe; added_tokens_list := [];
        vocab_size_base := len bpe; vocab_size := (len bpe + 0)%Z |}.
Proof.
  unfold BpeVocabM.check_and_build.
  destruct (list_eq_dec _ _ _) as [_|Hne]; [reflexivity|].
  exfalso. apply Hne. exact (range_empty (len bpe)).
Qed.

(** X4: when no added token is left (an explicit file that is an empty
    object, no embedded listing, or an embedded listing all of whose texts
    are base texts already, whatever ids they carry), the constructor
    succeeds and the vocabulary is the base vocabulary: as many tokens as
    base texts, every score 0.0, no token of type USER_DEFINED. *)
Theorem X4_no_added_tokens :
  forall fname_tokenizer tokenizer_json_file,
    let bpe := dict_of_items (tj_model_vocab fname_tokenizer) in
    BpeVocabM.load_added_tokens bpe (Some []) tokenizer_json_file = [] /\
    (forall vocab listing,
       (forall item, In item listing -> dict_contains (fst item) bpe = true) ->
       BpeVocabM.load_added_tokens bpe None
         (Some {| tj_model_vocab := vocab; tj_added_tokens := Some listing |}) =
       []) /\
    (forall fname_added_tokens,
       BpeVocabM.load_added_tokens bpe fname_added_tokens tokenizer_json_file =
         [] ->
       exists v,
         BpeVocabM.init fname_tokenizer fname_added_tokens tokenizer_json_file =
           Ok v /\
         added_tokens_list v = [] /\
         vocab_size v = len bpe /\
         BpeVocabM.all_tokens v = BpeVocabM.bpe_tokens v /\
         List.length (BpeVocabM.all_tokens v) = List.length bpe /\
         forall t, In t (BpeVocabM.all_tokens v) ->
                   BpeVocabM.score_of t = float_of_int 0 /\
                   BpeVocabM.type_of t <> USER_DEFINED).
Proof.
  intros ft tf bpe. split; [reflexivity|]. split.
  - intros vocab listing Hall. unfold BpeVocabM.load_added_tokens.
    cbn [tj_added_tokens]. rewrite filter_none; [reflexivity|].
    intros item Hin. now rewrite (Hall item Hin).
  - intros fa Hempty.
    eexists. unfold BpeVocabM.init. fold bpe. rewrite Hempty.
    rewrite check_and_build_empty. split; [reflexivity|].
    cbn [added_tokens_list vocab_size].
    split; [reflexivity|]. split; [lia|].
    assert (Hall : forall v, added_tokens_list v = [] ->
                             BpeVocabM.all_tokens v = BpeVocabM.bpe_tokens v).
    { intros v Hv. unfold BpeVocabM.all_tokens, BpeVocabM.added_tokens.
      rewrite Hv. apply app_nil_r. }
    rewrite Hall by reflexivity.
    split; [reflexivity|]. split.
    + now rewrite VocabFacts.bpe_tokens_length.
    + intros t Hin. apply In_nth_error in Hin as [i Hi].
      rewrite VocabFacts.bpe_tokens_nth in Hi.
      destruct (nth_error _ i) as [item|]; [|discriminate Hi].
      cbn [option_map] in Hi. injection Hi as <-.
      split; [reflexivity|]. apply classify_exact.
Qed.

Lemma X4_witness :
  exists v,
    BpeVocabM.init tj100 None
      (Some {| tj_model_vocab := base100;
               tj_added_tokens := Some [("t0"%string, 0%Z); ("t1"%string, 1%Z)] |}) =
      Ok v /\
    List.length (BpeVocabM.all_tokens v) = 100%nat.
Proof.
  destruct (X4_no_added_tokens tj100
              (Some {| tj_model_vocab := base100;
                       tj_added_tokens :=
                         Some [("t0"%string, 0%Z); ("t1"%string, 1%Z)] |}))
    as (_ & Hcollide & Hbuild).
  destruct (Hbuild None) as (v & Hv & _ & _ & _ & Hlen & _).
  - apply Hcollide. intros item [<-|[<-|[]]]; vm_compute; reflexivity.
  - exists v. split; [exact Hv|]. rewrite Hlen. vm_compute. reflexivity.
Defined.

(** X5: with the embedded listing as the source (no explicit file), no
    text occurs twice in a built vocabulary; with an explicit file nothing
    prevents it: a file that gives a base text the next free id yields a
    vocabulary with that text at two positions. *)
Theorem X5_fallback_texts_distinct :
  (forall fname_tokenizer tokenizer_json_file v,
     BpeVocabM.init fname_tokenizer None tokenizer_json_file = Ok v ->
     NoDup (map BpeVocabM.text_of (BpeVocabM.all_tokens v))) /\
  (exists v,
     BpeVocabM.init {| tj_model_vocab := [("a"%string, 0%Z)];
                       tj_added_tokens := None |}
                    (Some [("a"%string, 1%Z)]) None = Ok v /\
     map BpeVocabM.text_of (BpeVocabM.all_tokens v) = ["a"; "a"]%string).
Proof.
  split.
  - intros ft tf v Hv.
    set (bpe := dict_of_items (tj_model_vocab ft)).
    set (added := BpeVocabM.load_added_tokens bpe None tf).
    rewrite (built_texts _ _ _ Hv). fold bpe.
    destruct (init_added_keys _ _ _ Hv) as [Hperm Hnd].
    fold bpe added in Hperm.
    apply NoDup_app; [apply dict_of_items_NoDup | exact Hnd |].
    intros text Hbase Hadded.
    apply (Permutation_in _ Hperm) in Hadded.
    apply dict_contains_keys in Hbase.
    unfold added, BpeVocabM.load_added_tokens in Hadded.
    destruct tf as [tj|]; [|destruct Hadded].
    apply dict_of_items_keys in Hadded.
    apply in_map_iff in Hadded as (item & <- & Hitem).
    apply filter_In in Hitem as [_ Hkeep].
    rewrite Hbase in Hkeep. discriminate Hkeep.
  - eexists. split; reflexivity.
Qed.

Lemma X5_witness :
  exists v,
    BpeVocabM.init tj_embedded None (Some tj_embedded) = Ok v /\
    map BpeVocabM.text_of (BpeVocabM.all_tokens v) = ["a"; "b"; "<pad>"]%string /\
    NoDup (map BpeVocabM.text_of (BpeVocabM.all_tokens v)).
Proof.
  destruct (BpeVocabM.init tj_embedded None (Some tj_embedded)) as [v| |] eqn:E;
    try (vm_compute in E; discriminate E).
  exists v. split; [reflexivity|]. split.
  - vm_compute in E. injection E as <-. vm_compute. reflexivity.
  - exact (proj1 X5_fallback_texts_distinct tj_embedded (Some tj_embedded) v E).
Defined.

Lemma filter_key_NoDup {V} (f : string * V -> bool) (l : list (string * V)) :
  NoDup (map fst l) -> NoDup (map fst (filter f l)).
Proof.
  induction l as [|x l IH]; intros H; [constructor|].
  inversion H as [|? ? Hnotin Hnd]; subst. simpl.
  destruct (f x); [|now apply IH].
  simpl. constructor; [|now apply IH].
  intros Hin. apply Hnotin. apply in_map_iff in Hin as (y & Hy & Hin).
  apply filter_In in Hin as [Hin _]. rewrite <- Hy. now apply in_map.
Qed.

Lemma filter_perm {A} (f : A -> bool) (l l' : list A) :
  Permutation l l' -> Permutation (filter f l) (filter f l').
Proof.
  induction 1 as [|x l l' _ IH|x y l|l l' l'' _ IH1 _ IH2]; simpl.
  - constructor.
  - destruct (f x); [now constructor | exact IH].
  - destruct (f x), (f y); try reflexivity. apply perm_swap.
  - now transitivity (filter f l').
Qed.

(** X6: the order of the members of the added-tokens object does not
    matter: two explicit files, or two embedded listings, with the same
    entries in a different order (no text twice) give the same result,
    the same vocabulary or the same error. *)
Theorem X6_added_token_order_irrelevant :
  forall fname_tokenizer tokenizer_json_file members members',
    NoDup (map fst members) -> Permutation members members' ->
    BpeVocabM.init fname_tokenizer (Some members) tokenizer_json_file =
    BpeVocabM.init fname_tokenizer (Some members') tokenizer_json_file /\
    (forall vocab,
       BpeVocabM.init fname_tokenizer None
         (Some {| tj_model_vocab := vocab; tj_added_tokens := Some members |}) =
       BpeVocabM.init fname_tokenizer None
         (Some {| tj_model_vocab := vocab; tj_added_tokens := Some members' |})).
Proof.
  intros ft tf m m' Hnd Hperm.
  assert (Hnd' : NoDup (map fst m'))
    by (eapply Permutation_NoDup; [apply Permutation_map; exact Hperm | exact Hnd]).
  split.
  - unfold BpeVocabM.init, BpeVocabM.load_added_tokens.
    rewrite (@dict_of_items_id _ m Hnd), (@dict_of_items_id _ m' Hnd').
    now apply check_and_build_perm.
  - intros vocab. unfold BpeVocabM.init, BpeVocabM.load_added_tokens.
    cbn [tj_added_tokens].
    rewrite (@dict_of_items_id _ (filter _ m) (filter_key_NoDup _ _ Hnd)).
    rewrite (@dict_of_items_id _ (filter _ m') (filter_key_NoDup _ _ Hnd')).
    now apply check_and_build_perm, filter_perm.
Qed.

Lemma X6_witness :
  BpeVocabM.init tj100 (Some pad_sep) None =
  BpeVocabM.init tj100 (Some [("<sep>"%string, 101%Z); ("<pad>"%string, 100%Z)])
    None.
Proof.
  assert (Hnd : NoDup (map fst pad_sep)).
  { constructor; [intros [H|[]]; discriminate H|].
    constructor; [intros []|constructor]. }
  assert (Hperm : Permutation pad_sep
                    [("<sep>"%string, 101%Z); ("<pad>"%string, 100%Z)])
    by apply perm_swap.
  exact (proj1 (@X6_added_token_order_irrelevant tj100 None pad_sep _ Hnd Hperm)).
Defined.

(** X7: in the token table, USER_DEFINED is the type of exactly the
    positions from the base size on; UNKNOWN is only given at position 0
    and only to the text <unk>; CONTROL only at positions 1 and 2, BYTE
    only at positions 3 to 258, to texts in angle brackets (for BYTE,
    starting with <0x). *)
Theorem X7_token_type_positions :
  forall v i text score ty,
    nth_error (BpeVocabM.all_tokens v) i = Some (text, score, ty) ->
    let base := List.length (bpe_tokenizer v) in
    (ty = USER_DEFINED <-> (base <= i)%nat) /\
    (ty = UNKNOWN <-> (i < base)%nat /\ i = 0%nat /\ text = "<unk>"%string) /\
    (ty = CONTROL <->
     (i < base)%nat /\ (i = 1%nat \/ i = 2%nat) /\
     startswith text "<" = true /\ endswith text ">" = true) /\
    (ty = BYTE <->
     (i < base)%nat /\ (3 <= i <= 258)%nat /\
     startswith text "<0x" = true /\ endswith text ">" = true).
Proof.
  intros v i text score ty Hnth base.
  unfold BpeVocabM.all_tokens in Hnth.
  destruct (Nat.lt_ge_cases i base) as [Hlt|Hge].
  - rewrite nth_error_app1 in Hnth
      by (rewrite VocabFacts.bpe_tokens_length; exact Hlt).
    rewrite VocabFacts.bpe_tokens_nth in Hnth.
    destruct (nth_error _ i) as [item|]; [|discriminate Hnth].
    cbn [option_map] in Hnth. injection Hnth as <- <- <-.
    unfold encode_utf8.
    destruct (classify_exact i item) as (Hu & Hc & Hb & Hnot).
    repeat apply conj; intros H; try tauto; try lia.
  - rewrite nth_error_app2 in Hnth
      by (rewrite VocabFacts.bpe_tokens_length; exact Hge).
    unfold BpeVocabM.added_tokens in Hnth. rewrite nth_error_map in Hnth.
    destruct (nth_error _ _) as [t|]; [|discriminate Hnth].
    cbn [option_map] in Hnth. injection Hnth as <- <- <-.
    repeat apply conj; intros H; try discriminate H; try lia; try assumption;
      reflexivity.
Qed.

Lemma X7_witness :
  exists v,
    BpeVocabM.init tj100 (Some pad_sep) None = Ok v /\
    nth_error (BpeVocabM.all_tokens v) 100 =
      Some ("<pad>"%string, float_of_int (-1000), USER_DEFINED) /\
    (100 <= 100)%nat.
Proof.
  destruct (BpeVocabM.init tj100 (Some pad_sep) None) as [v| |] eqn:E;
    try (vm_compute in E; discriminate E).
  exists v. split; [reflexivity|].
  assert (Hnth : nth_error (BpeVocabM.all_tokens v) 100 =
                 Some ("<pad>"%string, float_of_int (-1000), USER_DEFINED)).
  { vm_compute in E. injection E as <-. vm_compute. reflexivity. }
  split; [exact Hnth|].
  assert (Hbase : List.length (bpe_tokenizer v) = 100%nat).
  { vm_compute in E. injection E as <-. vm_compute. reflexivity. }
  rewrite <- Hbase at 1.
  apply (X7_token_type_positions v 100 Hnth). reflexivity.
Defined.

(** ** Part files *)

Lemma count_parts_filter (listing : list string) :
  count_parts listing = List.length (filter is_part_file listing).
Proof.
  unfold count_parts.
  assert (H : forall acc,
             fold_left (fun n filename =>
                          if startswith filename "pytorch_model-"
                          then (n + 1)%nat else n) listing acc =
             (acc + List.length (filter is_part_file listing))%nat).
  { induction listing as [|f l IH]; intros acc; simpl; [lia|].
    rewrite IH. unfold is_part_file.
    destruct (startswith f "pytorch_model-"); simpl; lia. }
  apply H.
Qed.

Lemma startswith_app (p s : string) : startswith (p +++ s) p = true.
Proof.
  unfold startswith. induction p as [|c p IH]; simpl.
  - now destruct s.
  - destruct (ascii_dec c c) as [_|Hne]; [exact IH | now exfalso].
Qed.

Lemma filter_all {A} (f : A -> bool) (l : list A) :
  (forall x, In x l -> f x = true) -> filter f l = l.
Proof.
  induction l as [|x l IH]; intros H; [reflexivity|].
  simpl. rewrite (H x) by now left. f_equal. apply IH. intros; apply H; now right.
Qed.

Lemma part_names_are_part_files n p :
  (0 < n)%nat -> In p (part_names n) -> is_part_file p = true.
Proof.
  intros Hn Hin. unfold part_names in Hin.
  destruct (Nat.eqb_spec n 0); [lia|].
  apply in_map_iff in Hin as (i & <- & _). apply startswith_app.
Qed.

Lemma part_names_length n : (0 < n)%nat -> List.length (part_names n) = n.
Proof.
  intros Hn. unfold part_names. destruct (Nat.eqb_spec n 0); [lia|].
  now rewrite length_map, length_seq.
Qed.

(** X8: counting the part files of a directory that holds the files the
    script names for n parts (beside any files whose names do not start
    with pytorch_model-) gives n again, whatever the order of the listing,
    so every file the script then reads is in the directory. *)
Theorem X8_count_parts_of_part_names :
  (forall n, count_parts (part_names n) = n) /\
  (forall listing listing',
     Permutation listing listing' -> count_parts listing = count_parts listing') /\
  (forall n others listing,
     (forall f, In f others -> startswith f "pytorch_model-" = false) ->
     Permutation listing (part_names n ++ others) ->
     count_parts listing = n /\
     forall p, In p (part_names (count_parts listing)) -> In p listing).
Proof.
  assert (Hround : forall n, count_parts (part_names n) = n).
  { intros n. destruct n as [|n]; [reflexivity|].
    rewrite count_parts_filter, filter_all.
    - apply part_names_length. lia.
    - intros p. apply part_names_are_part_files. lia. }
  assert (Hperm : forall l l', Permutation l l' -> count_parts l = count_parts l').
  { intros l l' H. rewrite !count_parts_filter.
    now apply Permutation_length, filter_perm. }
  split; [exact Hround|]. split; [exact Hperm|].
  intros n others listing Hothers Hlisting.
  assert (Hcount : count_parts listing = n).
  { rewrite (Hperm _ _ Hlisting), count_parts_filter, filter_app, length_app.
    rewrite <- count_parts_filter, Hround.
    rewrite filter_none by exact Hothers. simpl. lia. }
  split; [exact Hcount|].
  intros p Hp. rewrite Hcount in Hp.
  apply Permutation_in with (l := part_names n ++ others);
    [now symmetry | apply in_or_app; now left].
Qed.

Lemma X8_witness :
  count_parts ["tokenizer.json"; "pytorch_model-00002-of-00002.bin";
               "config.json"; "pytorch_model-00001-of-00002.bin"]%string = 2%nat.
Proof.
  apply (proj2 (proj2 X8_count_parts_of_part_names) 2%nat
           ["tokenizer.json"; "config.json"]%string).
  - intros f [<-|[<-|[]]]; reflexivity.
  - symmetry.
    apply (@Permutation_cons_app _
             ["pytorch_model-00002-of-00002.bin"; "tokenizer.json"; "config.json"]%string
             ["tokenizer.json"; "pytorch_model-00002-of-00002.bin"; "config.json"]%string
             [] "pytorch_model-00001-of-00002.bin"%string).
    apply perm_swap.
Defined.

Lemma zeros_S (k : nat) (s : string) :
  String.concat "" (repeat "0"%string (S k)) +++ s =
  String "0" (String.concat "" (repeat "0"%string k) +++ s).
Proof. destruct k; reflexivity. Qed.

Lemma of_uint_D0 (d : Decimal.uint) : Nat.of_uint (Decimal.D0 d) = Nat.of_uint d.
Proof. reflexivity. Qed.

Lemma int_of_digits_zero (s : string) :
  s <> ""%string -> int_of_digits (String "0" s) = int_of_digits s.
Proof.
  intros Hs. unfold int_of_digits, NilZero.uint_of_string.
  destruct s as [|c s]; [contradiction|].
  cbn [NilEmpty.uint_of_string].
  destruct (uint_of_char c (NilEmpty.uint_of_string s)) as [d|]; reflexivity.
Qed.

Lemma int_of_digits_zeros (k : nat) (s : string) :
  s <> ""%string ->
  int_of_digits (String.concat "" (repeat "0"%string k) +++ s) = int_of_digits s.
Proof.
  intros Hs. induction k as [|k IH]; [reflexivity|].
  rewrite zeros_S, int_of_digits_zero; [exact IH|].
  destruct k; [exact Hs|]. rewrite zeros_S. discriminate.
Qed.

Lemma str_nat_nonempty (n : nat) : str_nat n <> ""%string.
Proof.
  unfold str_nat, NilZero.string_of_uint.
  destruct (Nat.to_uint n) eqn:E; simpl; discriminate.
Qed.

Lemma int_of_digits_str_nat (n : nat) : int_of_digits (str_nat n) = Some n.
Proof.
  unfold int_of_digits, str_nat.
  pose proof (DecimalNat.Unsigned.of_to n) as Hn.
  destruct (Nat.to_uint n) as [| | | | | | | | | |] eqn:E;
    try (rewrite NilZero.usu by discriminate; cbn [option_map]; now rewrite Hn).
  cbn in Hn. subst n. reflexivity.
Qed.

Lemma string_length_app (s r : string) :
  String.length (s +++ r) = (String.length s + String.length r)%nat.
Proof. induction s as [|c s IH]; simpl; [reflexivity | now rewrite IH]. Qed.

Lemma append_cancel_l (p s s' : string) : p +++ s = p +++ s' -> s = s'.
Proof.
  induction p as [|c p IH]; simpl; [tauto|].
  intros H. injection H as H. now apply IH.
Qed.

Lemma append_cancel_r (r s s' : string) : s +++ r = s' +++ r -> s = s'.
Proof.
  revert s'. induction s as [|c s IH]; intros s' H.
  - destruct s' as [|c' s']; [reflexivity|].
    apply (f_equal String.length) in H.
    simpl in H. rewrite string_length_app in H. lia.
  - destruct s' as [|c' s'].
    + apply (f_equal String.length) in H.
      simpl in H. rewrite string_length_app in H. lia.
    + simpl in H. injection H as -> H. f_equal. now apply IH.
Qed.

Lemma zeros_length (k : nat) :
  String.length (String.concat "" (repeat "0"%string k)) = k.
Proof.
  induction k as [|k IH]; [reflexivity|].
  assert (H : String.concat "" (repeat "0"%string (S k)) =
              String "0" (String.concat "" (repeat "0"%string k)))
    by (destruct k; reflexivity).
  rewrite H. cbn [String.length]. now rewrite IH.
Qed.

(** X9: the five-digit field of a part name is read back as the number it
    was made from; it is never shorter than five characters and never
    truncated; and the part names of a model are pairwise different, so no
    part file is read twice. *)
Theorem X9_part_names_distinct :
  (forall n, int_of_digits (fmt05 n) = Some n) /\
  (forall n, String.length (fmt05 n) =
             Nat.max 5 (String.length (str_nat n))) /\
  (forall n, NoDup (part_names n)).
Proof.
  assert (Hround : forall n, int_of_digits (fmt05 n) = Some n).
  { intros n. unfold fmt05. cbv zeta.
    rewrite int_of_digits_zeros by apply str_nat_nonempty.
    apply int_of_digits_str_nat. }
  split; [exact Hround|]. split.
  - intros n. unfold fmt05. cbv zeta.
    rewrite string_length_app, zeros_length. lia.
  - intros n. unfold part_names. destruct (n =? 0)%nat.
    + constructor; [intros []|constructor].
    + apply Finite.Injective_map_NoDup; [|apply seq_NoDup].
      intros i j H. apply append_cancel_l, append_cancel_r in H.
      apply (f_equal int_of_digits) in H. rewrite !Hround in H.
      now injection H.
Qed.

(** ** The writer *)

Lemma writer_events_app t t' :
  writer_events (t ++ t') = writer_events t ++ writer_events t'.
Proof. apply filter_app. Qed.

Lemma tensor_stage_writer_events t :
  forallb tensor_stage_event t = true ->
  writer_events t = map add_tensor (emitted t).
Proof.
  induction t as [|e t IH]; [reflexivity|].
  simpl. intros H. apply andb_prop in H as [He Ht].
  destruct e; try discriminate He; simpl; rewrite IH by assumption; reflexivity.
Qed.

Lemma tensor_stage_only_events get_name a d n :
  only tensor_stage_event (tensor_stage get_name a d n).
Proof. unfold tensor_stage, part_step, tensor_step, exit. only_tac. Qed.

Section WriterFacts.
Variable get_name : string -> option string.
Variable a : args.
Variable d : model_dir.

Let n : nat := count_parts (listdir d).

Lemma close_stage_trace f :
  snd (close_stage a f) = Ok tt /\
  writer_events (fst (close_stage a f)) =
    [SinkCall "write_header_to_file"; SinkCall "write_kv_data_to_file"] ++
    (if vocab_only a then [] else [SinkCall "write_tensors_to_file"]) ++
    [SinkCall "close"].
Proof. unfold close_stage. destruct (vocab_only a); repeat split. Qed.

(** What the tensor stage sends when no wanted name fails to map. *)
Lemma tensor_stage_sends :
  (vocab_only a = false ->
   forall p, In p (part_names n) -> part_unmappable get_name a d p = false) ->
  snd (tensor_stage get_name a d n) = Ok tt /\
  writer_events (fst (tensor_stage get_name a d n)) =
    (if vocab_only a then []
     else map add_tensor
            (flat_map (fun p => sent_tensors get_name a
                                  (torch_load d (part_path a p)))
                      (part_names n))).
Proof.
  intros Hall. destruct (vocab_only a) eqn:Hv.
  - rewrite tensor_stage_vocab_only by assumption. repeat split.
  - destruct (tensor_stage_ok get_name a d n Hv (Hall eq_refl)) as (Hok & Hs & _).
    split; [exact Hok|].
    rewrite tensor_stage_writer_events by apply tensor_stage_only_events.
    now rewrite <- emitted_shard_events, Hs, emitted_part_events.
Qed.

(** The tensor stage ends normally only when every wanted name maps, or
    the run is vocab-only. *)
Lemma tensor_stage_ok_inv :
  snd (tensor_stage get_name a d n) = Ok tt ->
  vocab_only a = false ->
  forall p, In p (part_names n) -> part_unmappable get_name a d p = false.
Proof.
  intros Hok Hv.
  destruct (tensor_stage_cases get_name a d n Hv)
    as [Hall|(pre & p & post & Hsplit & Hpre & Hp)]; [exact Hall|].
  destruct (tensor_stage_exit get_name a d n pre p post Hv Hsplit Hpre Hp)
    as (Hexit & _).
  rewrite Hok in Hexit. discriminate Hexit.
Qed.

(** The first stage ends normally only past both checks, with the writer
    constructed and the nine metadata calls made. *)
Lemma open_stage_ok_inv f m :
  snd (open_stage a d) = Ok (f, m) ->
  is_dir d = true /\
  (exists rest, architectures d = "GPTNeoXForCausalLM"%string :: rest) /\
  (forall o, outfile a = Some o -> f = o) /\
  writer_events (fst (open_stage a d)) =
    OpenWriter f :: map SinkCall metadata_calls.
Proof.
  unfold open_stage, count_model_parts.
  destruct (is_dir d); cbn [negb]; [|intros H; discriminate H].
  assert (Harch : forall (k : string -> M (string * nat)) r,
             snd (arch <- list_index (architectures d) 0 ;; k arch) = Ok r ->
             exists arch rest, architectures d = arch :: rest /\
                               list_index (architectures d) 0 = ret arch).
  { intros k r. destruct (architectures d) as [|arch rest].
    - intros H. discriminate H.
    - intros _. exists arch, rest. split; [reflexivity|apply list_index_0]. }
  assert (Hname :
            (exists g, match outfile a with
                       | Some f => ret f
                       | None => s <- list_index ftype_str (ftype a) ;;
                                 ret (model a +++ "/ggml-model-" +++ s +++ ".gguf")
                       end = ret g /\
                       forall o, outfile a = Some o -> g = o) \/
            (exists e msg, match outfile a with
                       | Some f => ret f
                       | None => s <- list_index ftype_str (ftype a) ;;
                                 ret (model a +++ "/ggml-model-" +++ s +++ ".gguf")
                       end = ([], Raise e msg))).
  { destruct (outfile a) as [o|].
    - left. exists o. split; [reflexivity|]. intros o' H. now injection H.
    - unfold list_index. cbv zeta.
      match goal with
      | |- context [match ?x with Some _ => _ | None => _ end] =>
          destruct x as [s|]
      end.
      + left. eexists. split; [reflexivity|]. intros o H. discriminate H.
      + right. eexists. eexists. reflexivity. }
  destruct Hname as [(g & -> & Hg)|(e & msg & ->)];
    [|intros H; discriminate H].
  rewrite bind_ret_l, bind_emit. cbn [fst snd].
  intros H. destruct (Harch _ _ H) as (arch & rest & Hrest & Hidx).
  revert H. rewrite Hidx, bind_ret_l.
  destruct (String.eqb arch "GPTNeoXForCausalLM") eqn:Heq; cbn [negb].
  - apply String.eqb_eq in Heq. subst arch.
    destruct (0 <? count_parts (listdir d))%nat;
      intros H; injection H as <- <-;
      (split; [reflexivity|]; split; [now exists rest|]; split;
       [exact Hg | reflexivity]).
  - rewrite bind_ret_l. intros H. discriminate H.
Qed.

(** The vocabulary stage ends normally only with tokenizer.json there and
    the vocabulary built. *)
Lemma vocab_stage_ok_inv :
  snd (vocab_stage a d) = Ok tt ->
  exists tj v,
    tokenizer_file d = Some tj /\
    BpeVocabM.init tj (added_tokens_file d) (Some tj) = Ok v /\
    writer_events (fst (vocab_stage a d)) =
      [SinkCall "add_tokenizer_model";
       AddTokenList (map BpeVocabM.text_of (BpeVocabM.all_tokens v));
       AddTokenScores (map BpeVocabM.score_of (BpeVocabM.all_tokens v));
       AddTokenTypes (map BpeVocabM.type_of (BpeVocabM.all_tokens v));
       SinkCall "special_vocab.add_to_gguf"].
Proof.
  unfold vocab_stage.
  destruct (tokenizer_file d) as [tj|]; [|intros H; discriminate H].
  destruct (BpeVocabM.init tj (added_tokens_file d) (Some tj)) as [v|e msg|s]
    eqn:E; intros H; try discriminate H.
  exists tj, v. split; [reflexivity|]. split; [exact E|reflexivity].
Qed.

(** A run ends normally only past every check of the script. *)
Lemma main_ok_inv :
  snd (main get_name a d) = Ok tt ->
  is_dir d = true /\
  (exists rest, architectures d = "GPTNeoXForCausalLM"%string :: rest) /\
  (vocab_only a = false ->
   forall p, In p (part_names n) -> part_unmappable get_name a d p = false) /\
  exists f tj v,
    (forall o, outfile a = Some o -> f = o) /\
    tokenizer_file d = Some tj /\
    BpeVocabM.init tj (added_tokens_file d) (Some tj) = Ok v /\
    writer_events (fst (main get_name a d)) =
      OpenWriter f :: map SinkCall metadata_calls ++
      [SinkCall "add_tokenizer_model";
       AddTokenList (map BpeVocabM.text_of (BpeVocabM.all_tokens v));
       AddTokenScores (map BpeVocabM.score_of (BpeVocabM.all_tokens v));
       AddTokenTypes (map BpeVocabM.type_of (BpeVocabM.all_tokens v));
       SinkCall "special_vocab.add_to_gguf"] ++
      (if vocab_only a then []
       else map add_tensor
              (flat_map (fun p => sent_tensors get_name a
                                    (torch_load d (part_path a p)))
                        (part_names n))) ++
      [SinkCall "write_header_to_file"; SinkCall "write_kv_data_to_file"] ++
      (if vocab_only a then [] else [SinkCall "write_tensors_to_file"]) ++
      [SinkCall "close"].
Proof.
  intros Hok. rewrite main_unfold in Hok. rewrite bind_snd in Hok.
  destruct (snd (open_stage a d)) as [[f m]| |] eqn:Eo;
    [|discriminate Hok..].
  pose proof (open_stage_count a d Eo) as Hm. fold n in Hm. subst m.
  cbn [fst snd] in Hok. rewrite bind_snd in Hok.
  destruct (snd (vocab_stage a d)) as [[]| |] eqn:Ev; [|discriminate Hok..].
  rewrite bind_snd in Hok.
  destruct (snd (tensor_stage get_name a d n)) as [[]| |] eqn:Et;
    [|discriminate Hok..].
  destruct (open_stage_ok_inv Eo) as (Hd & Harch & Hf & Wo).
  destruct (vocab_stage_ok_inv Ev) as (tj & v & Htok & Hinit & Wv).
  pose proof (tensor_stage_ok_inv Et) as Hall.
  destruct (tensor_stage_sends Hall) as (_ & Wt).
  destruct (close_stage_trace f) as (_ & Wc).
  split; [exact Hd|]. split; [exact Harch|]. split; [exact Hall|].
  exists f, tj, v. split; [exact Hf|]. split; [exact Htok|].
  split; [exact Hinit|].
  rewrite main_unfold, bind_fst, Eo. cbn [fst snd].
  rewrite bind_fst, Ev, bind_fst, Et.
  rewrite !writer_events_app, Wo, Wv, Wt, Wc. reflexivity.
Qed.

End WriterFacts.

(** X10: a run that ends normally has made exactly these writer calls, in
    this order: the construction of the writer (with the [--outfile] path
    when one is given), the nine metadata calls, the tokenizer model, the
    three token columns of the vocabulary built from tokenizer.json, the
    special vocabulary, one [add_tensor] per wanted tensor in part and key
    order (none in a vocab-only run, whatever the checkpoint holds), the
    header and metadata writes, the tensor write unless vocab-only, and
    [close] last. *)
Theorem X10_writer_calls_of_normal_run :
  forall (get_name : string -> option string) (a : args) (d : model_dir),
    let run := main get_name a d in
    snd run = Ok tt ->
    exists f tj v,
      let all := BpeVocabM.all_tokens v in
      (forall o, outfile a = Some o -> f = o) /\
      tokenizer_file d = Some tj /\
      BpeVocabM.init tj (added_tokens_file d) (Some tj) = Ok v /\
      writer_events (fst run) =
        OpenWriter f :: map SinkCall metadata_calls ++
        [SinkCall "add_tokenizer_model";
         AddTokenList (map BpeVocabM.text_of all);
         AddTokenScores (map BpeVocabM.score_of all);
         AddTokenTypes (map BpeVocabM.type_of all);
         SinkCall "special_vocab.add_to_gguf"] ++
        (if vocab_only a then []
         else map add_tensor
                (flat_map (fun p => sent_tensors get_name a
                                      (torch_load d (part_path a p)))
                          (part_names (count_parts (listdir d))))) ++
        [SinkCall "write_header_to_file"; SinkCall "write_kv_data_to_file"] ++
        (if vocab_only a then [] else [SinkCall "write_tensors_to_file"]) ++
        [SinkCall "close"].
Proof.
  intros get_name a d run Hok.
  destruct (main_ok_inv get_name a d Hok) as (_ & _ & _ & f & tj & v & H).
  exists f, tj, v. exact H.
Qed.

Lemma X10_witness :
  last (writer_events (fst (main sample_map sample_args sample_dir)))
       (SinkCall "") = SinkCall "close" /\
  emitted (writer_events (fst (main sample_map sample_args sample_dir))) =
  [("blk.a.weight"%string, {| t_dtype := float16; t_shape := [4; 8]%nat |});
   ("blk.b.weight"%string, {| t_dtype := float32; t_shape := [4]%nat |})].
Proof.
  assert (Hok : snd (main sample_map sample_args sample_dir) = Ok tt)
    by (vm_compute; reflexivity).
  destruct (X10_writer_calls_of_normal_run sample_map sample_args sample_dir Hok)
    as (f & tj & v & _ & _ & _ & Hw).
  rewrite Hw. split.
  - rewrite !app_comm_cons, !app_assoc. apply last_last.
  - rewrite app_comm_cons, !emitted_app.
    change (vocab_only sample_args) with false. cbv iota.
    rewrite emitted_add_tensor. vm_compute. reflexivity.
Defined.

Lemma metadata_not_closing :
  only not_closing (for_each (fun m => emit (SinkCall m)) metadata_calls).
Proof. reflexivity. Qed.

Ltac only_closing_tac :=
  repeat first
    [ exact metadata_not_closing
    | apply only_ret
    | apply only_lift
    | apply only_emit; reflexivity
    | apply only_for_each; intros ?
    | apply only_for_break; intros ?
    | apply only_bind; [|intros ?]
    | match goal with
      | |- only _ (if ?c then _ else _) => destruct c
      | |- only _ (match ?x with _ => _ end) => destruct x
      end ].

Lemma early_stages_not_closing get_name a d n :
  only not_closing (open_stage a d) /\
  only not_closing (vocab_stage a d) /\
  only not_closing (tensor_stage get_name a d n).
Proof.
  repeat split.
  - unfold open_stage, count_model_parts, list_index, exit. only_closing_tac.
  - unfold vocab_stage, exit. only_closing_tac.
  - unfold tensor_stage, part_step, tensor_step, exit. only_closing_tac.
Qed.

(** The stages before the last make none of the closing calls, and the
    last stage is reached only when they all end normally. *)
Lemma stopped_run_not_closing get_name a d :
  snd (main get_name a d) <> Ok tt ->
  forallb not_closing (fst (main get_name a d)) = true.
Proof.
  intros Hfail. rewrite main_unfold in *.
  pose proof (early_stages_not_closing get_name a d) as Hearly.
  destruct (Hearly 0%nat) as (Ho & Hv & _). unfold only in Ho, Hv.
  destruct (open_stage a d) as [t1 [[f n]| |]]; cbn [fst snd] in *;
    [|exact Ho..].
  destruct (Hearly n) as (_ & _ & Ht). unfold only in Ht.
  destruct (vocab_stage a d) as [t2 [[]| |]]; cbn [fst snd bind] in *;
    [|cbn [fst]; rewrite forallb_app, Ho, Hv; reflexivity..].
  destruct (close_stage_ok a f) as (Hc & _).
  destruct (tensor_stage get_name a d n) as [t3 [[]| |]];
    destruct (close_stage a f) as [t4 r4]; cbn [fst snd bind] in *;
    [subst r4; now exfalso|..];
    cbn [fst]; rewrite !forallb_app, Ho, Hv, Ht; reflexivity.
Qed.

(** X11: each condition on which the script stops itself keeps the run
    from the calls that write the file.  When the model path is not a
    directory, the declared architecture is not GPTNeoXForCausalLM (or
    none is declared), tokenizer.json is missing, the vocabulary cannot
    be built, or (unless vocab-only) a part file holds a wanted tensor
    name that does not map, the run does not end normally and none of
    write_header_to_file, write_kv_data_to_file, write_tensors_to_file
    and close is made.  In the first two cases the writer is not even
    constructed; a missing tokenizer.json is found only after the writer
    was constructed. *)
Theorem X11_stopped_run_writes_nothing :
  forall (get_name : string -> option string) (a : args) (d : model_dir),
    let run := main get_name a d in
    (is_dir d = false \/
     (forall rest, architectures d <> "GPTNeoXForCausalLM"%string :: rest) \/
     tokenizer_file d = None \/
     (exists tj e msg,
        tokenizer_file d = Some tj /\
        BpeVocabM.init tj (added_tokens_file d) (Some tj) = Raise e msg) \/
     (vocab_only a = false /\
      exists p, In p (part_names (count_parts (listdir d))) /\
                part_unmappable get_name a d p = true) ->
     snd run <> Ok tt /\ forallb not_closing (fst run) = true) /\
    (is_dir d = false -> writer_events (fst run) = []) /\
    (forall arch rest,
       is_dir d = true -> fname_out_defined a ->
       architectures d = arch :: rest ->
       arch <> "GPTNeoXForCausalLM"%string ->
       writer_events (fst run) = []) /\
    (forall rest,
       is_dir d = true -> fname_out_defined a ->
       architectures d = "GPTNeoXForCausalLM"%string :: rest ->
       tokenizer_file d = None ->
       exists f calls, writer_events (fst run) = OpenWriter f :: calls).
Proof.
  intros get_name a d run. split; [|split; [|split]].
  - intros Hcause.
    assert (Hfail : snd run <> Ok tt).
    { intros Hok.
      destruct (main_ok_inv get_name a d Hok)
        as (Hd & [rest Harch] & Hall & f & tj & v & _ & Htok & Hinit & _).
      destruct Hcause as [H|[H|[H|[(tj' & e & msg & Htok' & Hinit')|
                                   (Hv & p & Hin & Hp)]]]].
      - rewrite H in Hd. discriminate Hd.
      - exact (H rest Harch).
      - rewrite H in Htok. discriminate Htok.
      - rewrite Htok' in Htok. injection Htok as ->.
        rewrite Hinit' in Hinit. discriminate Hinit.
      - rewrite (Hall Hv p Hin) in Hp. discriminate Hp. }
    split; [exact Hfail|]. now apply stopped_run_not_closing.
  - intros Hd. unfold run. rewrite main_unfold, (open_stage_not_dir a d Hd).
    reflexivity.
  - intros arch rest Hd Hf Harch Hne. unfold run.
    rewrite main_unfold, (open_stage_wrong_architecture d Hd Hf Harch Hne).
    reflexivity.
  - intros rest Hd Hf Harch Htok.
    destruct (open_stage_ok d Hd Hf Harch) as (t1 & f & Hopen & _).
    destruct (open_stage_ok_inv a d (f := f)
                (m := count_parts (listdir d))) as (_ & _ & _ & Wo).
    { now rewrite Hopen. }
    unfold run. rewrite main_unfold, bind_fst, writer_events_app, Wo.
    eexists. eexists. rewrite <- app_comm_cons. reflexivity.
Qed.

Lemma X11_witness :
  snd (main sample_map sample_args sample_dir_unmapped) <> Ok tt /\
  forallb not_closing (fst (main sample_map sample_args sample_dir_unmapped)) =
  true.
Proof.
  apply (proj1 (X11_stopped_run_writes_nothing sample_map sample_args
                  sample_dir_unmapped)).
  right. right. right. right. split; [reflexivity|].
  exists "pytorch_model-00002-of-00002.bin"%string. split.
  - right. left. reflexivity.
  - vm_compute. reflexivity.
Defined.

Lemma forallb_filter_id {A} (f : A -> bool) (l : list A) :
  forallb f (filter f l) = true.
Proof.
  induction l as [|x l IH]; [reflexivity|].
  simpl. destruct (f x) eqn:E; [simpl; now rewrite E|exact IH].
Qed.

Lemma convert_sendable ft name data :
  sendable ft (Policy.convert ft name data) = true.
Proof.
  unfold sendable.
  rewrite PolicyFacts.convert_shape, forallb_filter_id, PolicyFacts.convert_dtype.
  destruct (Z.eqb_spec ft 0) as [->|Hne].
  - rewrite PolicyFacts.decide_32_is_float32. reflexivity.
  - unfold Policy.decide. rewrite (proj2 (Z.eqb_neq ft 0) Hne).
    destruct (t_dtype data), (ft =? 1)%Z,
      (Policy.n_dims data =? 1)%nat, (Policy.n_dims data =? 2)%nat,
      (endswith name ".weight"); reflexivity.
Qed.

Lemma main_sends_sendable get_name a d :
  only (sends_sendable (ftype a)) (main get_name a d).
Proof.
  unfold main, open_stage, vocab_stage, tensor_stage, close_stage,
    count_model_parts, part_step, tensor_step, list_index, exit.
  repeat first
    [ apply only_ret
    | apply only_lift
    | apply only_emit; first [reflexivity | apply convert_sendable]
    | apply only_for_each; intros ?
    | apply only_for_break; intros ?
    | apply only_bind; [|intros ?]
    | match goal with
      | |- only _ (if ?c then _ else _) => destruct c
      | |- only _ (match ?x with _ => _ end) => destruct x
      end ].
Qed.

Lemma emitted_In t name x :
  In (name, x) (emitted t) -> In (AddTensor name x) t.
Proof.
  induction t as [|e t IH]; [intros []|].
  destruct e; simpl; try (intros H; right; now apply IH).
  intros [H|H]; [left; now injection H as -> -> | right; now apply IH].
Qed.

(** X12: whatever a run sends to [add_tensor] is a float16 or float32
    array without a dimension of size one, and under the 32-bit target it
    is float32; no other element type ever reaches the writer. *)
Theorem X12_tensors_sent_are_float :
  forall (get_name : string -> option string) (a : args) (d : model_dir)
         new_name x,
    In (new_name, x) (emitted (fst (main get_name a d))) ->
    (t_dtype x = float16 \/ t_dtype x = float32) /\
    ~ In 1%nat (t_shape x) /\
    (ftype a = 0%Z -> t_dtype x = float32).
Proof.
  intros get_name a d new_name x Hin.
  apply emitted_In in Hin.
  pose proof (main_sends_sendable get_name a d) as Hall.
  unfold only in Hall. rewrite forallb_forall in Hall.
  specialize (Hall _ Hin). cbn [sends_sendable] in Hall.
  unfold sendable in Hall.
  apply andb_prop in Hall as [Hall Hft].
  apply andb_prop in Hall as [Hdt Hshape].
  split; [|split].
  - destruct (t_dtype x); try discriminate Hdt; auto.
  - intros H1. rewrite forallb_forall in Hshape.
    specialize (Hshape _ H1). discriminate Hshape.
  - intros H0. rewrite H0 in Hft. cbn in Hft.
    destruct (t_dtype x); try discriminate Hft; reflexivity.
Qed.

Lemma X12_witness :
  t_dtype {| t_dtype := float16; t_shape := [4; 8]%nat |} = float16 \/
  t_dtype {| t_dtype := float16; t_shape := [4; 8]%nat |} = float32.
Proof.
  apply (@X12_tensors_sent_are_float sample_map sample_args sample_dir
           "blk.a.weight"%string).
  vm_compute. left. reflexivity.
Defined.
